(** * useSlider: the index / progress / timer state machine of the hook

    Shallow embedding of [useSlider] (the JavaScript implementation that
    follows the two type declarations in [src/index.d.ts]) and the
    properties of its index state, progress values and interval timers.

    Conventions of the embedding.

    - JavaScript numbers that hold slide indices, the configuration and the
      elapsed-time accumulators are built from integers with [+], [-], [*],
      [%], [Math.min] and [Math.max] only; they are modelled by [number]:
      an integer or [NaN] ([x % 0] is [NaN]).
    - Progress values are quotients of two such numbers times 100; they are
      modelled by [ratio]: an exact rational, [NaN] or a signed infinity.
      IEEE rounding of quotients and the sign of zero are not modelled.
    - An interval timer is modelled by [option number]: [None] when the
      handle stored in the ref is cleared, [Some t] when the interval is
      live and the variable captured by its callback ([progressTime],
      [loopTime]) holds [t].
    - React state setters and ref writes become record updates threaded in
      program order; effects are functions run by [step] in the order React
      runs them. *)

From Stdlib Require Import ZArith QArith Bool List Lia.
Import ListNotations.

Local Open Scope Z_scope.

(** ** JavaScript numbers *)

Module Js.

(** Integer-valued numbers and [NaN]. *)
Inductive number : Type :=
| Int (z : Z)
| NaN.

(** Results of a division. *)
Inductive ratio : Type :=
| Fin (q : Q)
| RNaN
| PInf
| NInf.

Definition add (a b : number) : number :=
  match a, b with
  | Int x, Int y => Int (x + y)
  | _, _ => NaN
  end.

Definition sub (a b : number) : number :=
  match a, b with
  | Int x, Int y => Int (x - y)
  | _, _ => NaN
  end.

Definition mul (a b : number) : number :=
  match a, b with
  | Int x, Int y => Int (x * y)
  | _, _ => NaN
  end.

(** [a % b]: the remainder takes the sign of the dividend, and a zero
    divisor gives [NaN]. *)
Definition rem (a b : number) : number :=
  match a, b with
  | Int x, Int y => if y =? 0 then NaN else Int (Z.rem x y)
  | _, _ => NaN
  end.

Definition min (a b : number) : number :=
  match a, b with
  | Int x, Int y => Int (Z.min x y)
  | _, _ => NaN
  end.

Definition max (a b : number) : number :=
  match a, b with
  | Int x, Int y => Int (Z.max x y)
  | _, _ => NaN
  end.

(** [a === b]: [NaN] is not equal to anything, itself included. *)
Definition seq (a b : number) : bool :=
  match a, b with
  | Int x, Int y => x =? y
  | _, _ => false
  end.

(** Ordering comparisons are false as soon as one side is [NaN]. *)
Definition lt (a b : number) : bool :=
  match a, b with
  | Int x, Int y => x <? y
  | _, _ => false
  end.

Definition le (a b : number) : bool :=
  match a, b with
  | Int x, Int y => x <=? y
  | _, _ => false
  end.

Definition gt (a b : number) : bool := lt b a.

Definition ge (a b : number) : bool := le b a.

(** [a / b] on integer-valued numbers. *)
Definition div (a b : number) : ratio :=
  match a, b with
  | Int x, Int y =>
      if y =? 0 then
        if x =? 0 then RNaN else if 0 <? x then PInf else NInf
      else Fin (Qred (inject_Z x / inject_Z y))
  | _, _ => RNaN
  end.

(** [r * n] for a quotient [r] and an integer-valued [n]. *)
Definition rmul (r : ratio) (n : number) : ratio :=
  match r, n with
  | Fin q, Int z => Fin (Qred (q * inject_Z z))
  | PInf, Int z => if z =? 0 then RNaN else if 0 <? z then PInf else NInf
  | NInf, Int z => if z =? 0 then RNaN else if 0 <? z then NInf else PInf
  | _, _ => RNaN
  end.

(** [r >= n] for a quotient [r] and an integer-valued [n]. *)
Definition rge (r : ratio) (n : number) : bool :=
  match r, n with
  | Fin q, Int z => Qle_bool (inject_Z z) q
  | PInf, Int _ => true
  | _, _ => false
  end.

(** [r <= n]. *)
Definition rle (r : ratio) (n : number) : bool :=
  match r, n with
  | Fin q, Int z => Qle_bool q (inject_Z z)
  | NInf, Int _ => true
  | _, _ => false
  end.

(** A number that is an integer lying in [[lo, hi]]. *)
Definition between (lo hi : Z) (a : number) : bool :=
  match a with
  | Int x => (lo <=? x) && (x <=? hi)
  | NaN => false
  end.

(** A percentage in the documented range 0 to 100. *)
Definition percent (r : ratio) : bool := rge r (Int 0) && rle r (Int 100).

End Js.

Import Js.

Declare Scope js_scope.
Delimit Scope js_scope with js.
Notation "a + b" := (Js.add a b) : js_scope.
Notation "a - b" := (Js.sub a b) : js_scope.
Notation "a * b" := (Js.mul a b) : js_scope.
Notation "a 'mod' b" := (Js.rem a b) : js_scope.
Notation "a === b" := (Js.seq a b) (at level 70, no associativity) : js_scope.
Notation "a <? b" := (Js.lt a b) : js_scope.
Notation "a >? b" := (Js.gt a b) : js_scope.
Notation "a <=? b" := (Js.le a b) : js_scope.
Notation "a >=? b" := (Js.ge a b) : js_scope.

(** ** State of one hook instance *)

Inductive Direction : Type :=
| next
| prev.

(** The object held by [indexState]. *)
Record IndexState : Type := mkIndexState {
  currentSlide : number;
  prevIndex : number;
  nextIndex : number
}.

(** Every [useState] cell and every [useRef] cell of the hook. *)
Record State : Type := mkState {
  indexState : IndexState;
  currentSlideRef : number;
  slideTimeProgress : ratio;
  totalProgress : ratio;
  loopProgress : ratio;
  bulletProgress : ratio;
  direction : Direction;
  isVisible : bool;
  slideProgressIntervalRef : option number;
  loopProgressIntervalRef : option number;
  isAnimating : bool;
  isInitialized : bool
}.

Definition setIndexState (v : IndexState) (s : State) : State :=
  mkState v (currentSlideRef s) (slideTimeProgress s) (totalProgress s)
    (loopProgress s) (bulletProgress s) (direction s) (isVisible s)
    (slideProgressIntervalRef s) (loopProgressIntervalRef s)
    (isAnimating s) (isInitialized s).

Definition setCurrentSlideRef (v : number) (s : State) : State :=
  mkState (indexState s) v (slideTimeProgress s) (totalProgress s)
    (loopProgress s) (bulletProgress s) (direction s) (isVisible s)
    (slideProgressIntervalRef s) (loopProgressIntervalRef s)
    (isAnimating s) (isInitialized s).

Definition setSlideTimeProgress (v : ratio) (s : State) : State :=
  mkState (indexState s) (currentSlideRef s) v (totalProgress s)
    (loopProgress s) (bulletProgress s) (direction s) (isVisible s)
    (slideProgressIntervalRef s) (loopProgressIntervalRef s)
    (isAnimating s) (isInitialized s).

Definition setTotalProgress (v : ratio) (s : State) : State :=
  mkState (indexState s) (currentSlideRef s) (slideTimeProgress s) v
    (loopProgress s) (bulletProgress s) (direction s) (isVisible s)
    (slideProgressIntervalRef s) (loopProgressIntervalRef s)
    (isAnimating s) (isInitialized s).

Definition setLoopProgress (v : ratio) (s : State) : State :=
  mkState (indexState s) (currentSlideRef s) (slideTimeProgress s)
    (totalProgress s) v (bulletProgress s) (direction s) (isVisible s)
    (slideProgressIntervalRef s) (loopProgressIntervalRef s)
    (isAnimating s) (isInitialized s).

Definition setBulletProgress (v : ratio) (s : State) : State :=
  mkState (indexState s) (currentSlideRef s) (slideTimeProgress s)
    (totalProgress s) (loopProgress s) v (direction s) (isVisible s)
    (slideProgressIntervalRef s) (loopProgressIntervalRef s)
    (isAnimating s) (isInitialized s).

Definition setDirection (v : Direction) (s : State) : State :=
  mkState (indexState s) (currentSlideRef s) (slideTimeProgress s)
    (totalProgress s) (loopProgress s) (bulletProgress s) v (isVisible s)
    (slideProgressIntervalRef s) (loopProgressIntervalRef s)
    (isAnimating s) (isInitialized s).

Definition setIsVisible (v : bool) (s : State) : State :=
  mkState (indexState s) (currentSlideRef s) (slideTimeProgress s)
    (totalProgress s) (loopProgress s) (bulletProgress s) (direction s) v
    (slideProgressIntervalRef s) (loopProgressIntervalRef s)
    (isAnimating s) (isInitialized s).

Definition setSlideProgressIntervalRef (v : option number) (s : State) : State :=
  mkState (indexState s) (currentSlideRef s) (slideTimeProgress s)
    (totalProgress s) (loopProgress s) (bulletProgress s) (direction s)
    (isVisible s) v (loopProgressIntervalRef s)
    (isAnimating s) (isInitialized s).

Definition setLoopProgressIntervalRef (v : option number) (s : State) : State :=
  mkState (indexState s) (currentSlideRef s) (slideTimeProgress s)
    (totalProgress s) (loopProgress s) (bulletProgress s) (direction s)
    (isVisible s) (slideProgressIntervalRef s) v
    (isAnimating s) (isInitialized s).

Definition setIsAnimating (v : bool) (s : State) : State :=
  mkState (indexState s) (currentSlideRef s) (slideTimeProgress s)
    (totalProgress s) (loopProgress s) (bulletProgress s) (direction s)
    (isVisible s) (slideProgressIntervalRef s) (loopProgressIntervalRef s)
    v (isInitialized s).

Definition setIsInitialized (v : bool) (s : State) : State :=
  mkState (indexState s) (currentSlideRef s) (slideTimeProgress s)
    (totalProgress s) (loopProgress s) (bulletProgress s) (direction s)
    (isVisible s) (slideProgressIntervalRef s) (loopProgressIntervalRef s)
    (isAnimating s) v.

(** [clearInterval(slideProgressIntervalRef.current)] *)
Definition clearSlideInterval (s : State) : State :=
  setSlideProgressIntervalRef None s.

(** [clearInterval(loopProgressIntervalRef.current)] *)
Definition clearLoopInterval (s : State) : State :=
  setLoopProgressIntervalRef None s.

(** The events that drive one instance. *)
Inductive Event : Type :=
| Mount
| NextSlide
| PrevSlide
| GoToSlide (index : Z)
| Intersect (isIntersecting : bool)
| SlideTick
| LoopTick.

(** ** The hook body *)

Section UseSlider.

(** The configuration object destructured by [useSlider]; it is fixed for
    the life of the instance. *)
Variables (autoScroll loop : bool) (speed totalSlides : Z).

Local Open Scope js_scope.

Let total : number := Int totalSlides.

(** The [useState]/[useRef] initial values. *)
Definition initialState : State :=
  {| indexState :=
       {| currentSlide := Int 0;
          prevIndex := total - Int 1;
          nextIndex := Int 1 |};
     currentSlideRef := Int 0;
     slideTimeProgress := Fin 0;
     totalProgress := Fin 0;
     loopProgress := Fin 0;
     bulletProgress := Fin 0;
     direction := next;
     isVisible := false;
     slideProgressIntervalRef := None;
     loopProgressIntervalRef := None;
     isAnimating := false;
     isInitialized := false |}.

Definition calculateBulletProgress (totalSlides activeIndex : number) : ratio :=
  let activeIndex := if activeIndex <? Int 0 then Int 0 else activeIndex in
  let activeIndex :=
    if activeIndex >=? totalSlides then totalSlides - Int 1 else activeIndex in
  rmul (div activeIndex (totalSlides - Int 1)) (Int 100).

(** The value [updateIndexes] gives [prevIndex] when no [prevSlide]
    argument is passed. *)
Definition recomputedPrevIndex (newCurrentSlide : number) : number :=
  if newCurrentSlide === Int 0
  then (if loop then total - Int 1 else Int 0)
  else newCurrentSlide - Int 1.

(** The value [updateIndexes] gives [nextIndex]. *)
Definition recomputedNextIndex (newCurrentSlide : number) : number :=
  if newCurrentSlide === total - Int 1
  then (if loop then Int 0 else total - Int 1)
  else newCurrentSlide + Int 1.

(** [prevSlide] is [None] for the default [null]. *)
Definition updateIndexes (newCurrentSlide : number) (prevSlide : option number)
    (s : State) : State :=
  let prevIndex :=
    match prevSlide with
    | Some p => p
    | None => recomputedPrevIndex newCurrentSlide
    end in
  let nextIndex := recomputedNextIndex newCurrentSlide in
  let s := setIndexState
             {| currentSlide := newCurrentSlide;
                prevIndex := prevIndex;
                nextIndex := nextIndex |} s in
  setCurrentSlideRef newCurrentSlide s.

(** Clears the previous slide interval and registers a new one whose
    [progressTime] starts at 0. *)
Definition startSlideProgress (s : State) : State :=
  if negb autoScroll || (Int speed <=? Int 0) then s
  else
    let s := clearSlideInterval s in
    setSlideProgressIntervalRef (Some (Int 0)) s.

Definition nextSlide (s : State) : State :=
  if isAnimating s || negb (isInitialized s) then s
  else
    let s := setIsAnimating true s in
    let s := setDirection next s in
    let newSlide :=
      if loop
      then (currentSlideRef s + Int 1) mod total
      else Js.min (currentSlideRef s + Int 1) (total - Int 1) in
    if negb loop && (newSlide === currentSlideRef s) then
      let s := clearSlideInterval s in
      let s := setSlideTimeProgress (Fin 100) s in
      setIsAnimating false s
    else
      let s := updateIndexes newSlide (Some (currentSlideRef s)) s in
      let s := startSlideProgress s in
      setIsAnimating false s.

Definition prevSlide (s : State) : State :=
  let s := setDirection prev s in
  let newSlide :=
    if loop
    then (currentSlideRef s - Int 1 + total) mod total
    else Js.max (currentSlideRef s - Int 1) (Int 0) in
  let s := updateIndexes newSlide (Some (currentSlideRef s)) s in
  startSlideProgress s.

(** One firing of the callback registered by [startSlideProgress]; there
    is nothing to fire when the interval is cleared. *)
Definition slideIntervalCallback (s : State) : State :=
  match slideProgressIntervalRef s with
  | None => s
  | Some progressTime =>
      let interval := Int 100 in
      let progressTime := progressTime + interval in
      let s := setSlideProgressIntervalRef (Some progressTime) s in
      let slideProgress := rmul (div progressTime (Int speed)) (Int 100) in
      let s := setSlideTimeProgress slideProgress s in
      if rge slideProgress (Int 100) then
        let s := clearSlideInterval s in
        let s := setSlideTimeProgress (Fin 0) s in
        if loop || (currentSlideRef s <? total - Int 1)
        then nextSlide s
        else s
      else s
  end.

(** [initialProgress] is [None] for the default [0]. *)
Definition handleLoopProgress (initialProgress : option number) (s : State)
    : State :=
  let s := clearLoopInterval s in
  let loopTime :=
    match initialProgress with
    | Some p => p
    | None => Int 0
    end in
  setLoopProgressIntervalRef (Some loopTime) s.

(** One firing of the callback registered by [handleLoopProgress]. *)
Definition loopIntervalCallback (s : State) : State :=
  match loopProgressIntervalRef s with
  | None => s
  | Some loopTime =>
      let loopDuration := Int speed * total in
      let interval := Int 100 in
      let loopTime := loopTime + interval in
      let progress := rmul (div loopTime loopDuration) (Int 100) in
      let s := setLoopProgress progress s in
      let loopTime := if rge progress (Int 100) then Int 0 else loopTime in
      setLoopProgressIntervalRef (Some loopTime) s
  end.

Definition goToSlide (index : number) (s : State) : State :=
  if index === currentSlideRef s then s
  else
    let s := clearSlideInterval s in
    let s := clearLoopInterval s in
    let newSlide :=
      if loop
      then index mod total
      else Js.min (Js.max index (Int 0)) (total - Int 1) in
    let s := setDirection
               (if newSlide >? currentSlideRef s then next else prev) s in
    let s := updateIndexes newSlide (Some (currentSlideRef s)) s in
    if autoScroll && (Int speed >? Int 0) then
      let initialProgress := newSlide * Int speed in
      let s := handleLoopProgress (Some initialProgress) s in
      startSlideProgress s
    else s.

(** *** Effects *)

(** The effect with dependencies [[isVisible, goToSlide]]. *)
Definition visibilityEffect (s : State) : State :=
  if negb (isVisible s) then
    let s := clearSlideInterval s in
    let s := clearLoopInterval s in
    setSlideTimeProgress (Fin 0) s
  else goToSlide (currentSlideRef s) s.

(** The effect with dependencies
    [[autoScroll, startSlideProgress, handleLoopProgress, speed, isVisible]]. *)
Definition autoScrollEffect (s : State) : State :=
  if isInitialized s then
    if autoScroll && isVisible s && (Int speed >? Int 0) then
      let s := startSlideProgress s in
      handleLoopProgress None s
    else
      let s := setSlideTimeProgress (Fin 0) s in
      let s := clearSlideInterval s in
      clearLoopInterval s
  else setIsInitialized true s.

(** The cleanup returned by [autoScrollEffect]. *)
Definition autoScrollCleanup (s : State) : State :=
  let s := clearSlideInterval s in
  clearLoopInterval s.

(** The effect with dependencies [[indexState.currentSlide, totalSlides]]. *)
Definition progressEffect (s : State) : State :=
  let totalProg :=
    rmul (div (currentSlide (indexState s) + Int 1) total) (Int 100) in
  let s := setTotalProgress totalProg s in
  setBulletProgress
    (calculateBulletProgress total (currentSlide (indexState s))) s.

(** *** Scheduling

    With a fixed configuration every callback keeps its identity, so
    after the first commit only a change of [isVisible] re-runs
    [visibilityEffect] and [autoScrollEffect], and only a change of
    [indexState.currentSlide] re-runs [progressEffect].  The latter
    writes values that depend on [indexState.currentSlide] and
    [totalSlides] alone, so running it after every event of a mounted
    instance leaves the same state as running it on changes only. *)

Definition commit (s : State) : State :=
  if isInitialized s then progressEffect s else s.

(** [Mount] is the first flush of the effects, in declaration order.
    The intersection observer exists only after it, and only when
    [autoScroll] is set; its callback re-renders only when the reported
    value differs from [isVisible]. *)
Definition step (e : Event) (s : State) : State :=
  match e with
  | Mount =>
      if isInitialized s then s
      else progressEffect (autoScrollEffect (visibilityEffect s))
  | NextSlide => commit (nextSlide s)
  | PrevSlide => commit (prevSlide s)
  | GoToSlide index => commit (goToSlide (Int index) s)
  | Intersect isIntersecting =>
      if autoScroll && isInitialized s then
        if Bool.eqb isIntersecting (isVisible s) then s
        else
          let s := setIsVisible isIntersecting s in
          let s := autoScrollCleanup s in
          let s := visibilityEffect s in
          let s := autoScrollEffect s in
          commit s
      else s
  | SlideTick => commit (slideIntervalCallback s)
  | LoopTick => commit (loopIntervalCallback s)
  end.

(** Runs the events from left to right. *)
Definition run (events : list Event) (s : State) : State :=
  fold_left (fun s e => step e s) events s.

(** The states an instance can be in. *)
Inductive reachable : State -> Prop :=
| reachable_initial : reachable initialState
| reachable_step e s : reachable s -> reachable (step e s).

End UseSlider.

Arguments reachable_initial {autoScroll loop speed totalSlides}.
Arguments reachable_step {autoScroll loop speed totalSlides} e {s} _.

(** [relinked loop totalSlides before after]: what a navigation that goes
    through [updateIndexes] leaves in the index state.  [nextIndex] is the
    value recomputed from the new current slide; [prevIndex] is the slide
    that was current before the call. *)
Definition relinked (loop : bool) (totalSlides : Z) (before after : State) : Prop :=
  nextIndex (indexState after)
    = recomputedNextIndex loop totalSlides (currentSlide (indexState after))
  /\ prevIndex (indexState after) = currentSlide (indexState before).

(** The target of [goToSlide] after wrapping (looping) or clamping. *)
Definition normalizedTarget (loop : bool) (totalSlides : Z) (index : number) : number :=
  if loop
  then (index mod Int totalSlides)%js
  else Js.min (Js.max index (Int 0)) (Int totalSlides - Int 1)%js.

(** The candidate slide computed by [nextSlide]. *)
Definition nextCandidate (loop : bool) (totalSlides : Z) (current : number) : number :=
  if loop
  then ((current + Int 1) mod Int totalSlides)%js
  else Js.min (current + Int 1)%js (Int totalSlides - Int 1)%js.

(** The ref mirror of the current slide agrees with the rendered state,
    and the re-entrancy lock is released between events. *)
Definition settled (s : State) : Prop :=
  currentSlideRef s = currentSlide (indexState s) /\ isAnimating s = false.

(** A live slide interval was registered by [startSlideProgress], which
    needs [autoScroll] and a positive [speed]. *)
Definition slideTimerGuard (autoScroll : bool) (speed : Z) (s : State) : Prop :=
  slideProgressIntervalRef s <> None -> autoScroll = true /\ 0 < speed.

(** The candidate slide computed by [prevSlide]. *)
Definition prevCandidate (loop : bool) (totalSlides : Z) (current : number) : number :=
  if loop
  then ((current - Int 1 + Int totalSlides) mod Int totalSlides)%js
  else Js.max (current - Int 1)%js (Int 0).

(** Events whose argument [goToSlide] can bring into range: every index
    when clamping, the non-negative ones when wrapping with [%]. *)
Definition admissible (loop : bool) (e : Event) : bool :=
  match e with
  | GoToSlide index => negb loop || (0 <=? index)
  | _ => true
  end.

(** The three exposed indices are slides of the carousel; the initial
    [nextIndex] is the literal 1, a slide only when there are two. *)
Definition indicesInRange (totalSlides : Z) (s : State) : Prop :=
  between 0 (totalSlides - 1) (currentSlide (indexState s)) = true
  /\ between 0 (totalSlides - 1) (prevIndex (indexState s)) = true
  /\ (2 <= totalSlides ->
      between 0 (totalSlides - 1) (nextIndex (indexState s)) = true).

Definition steady (totalSlides : Z) (s : State) : Prop :=
  settled s /\ indicesInRange totalSlides s.

(** Once mounted, the two derived percentages are those of the current
    slide. *)
Definition progressSynced (totalSlides : Z) (s : State) : Prop :=
  isInitialized s = true ->
  totalProgress s
    = rmul (div (currentSlide (indexState s) + Int 1)%js (Int totalSlides)) (Int 100)
  /\ bulletProgress s
     = calculateBulletProgress (Int totalSlides) (currentSlide (indexState s)).

(** The loop interval holds a multiple of the tick below the cycle length,
    and the exposed loop progress is a percentage. *)
Definition loopTimed (speed totalSlides : Z) (s : State) : Prop :=
  percent (loopProgress s) = true
  /\ match loopProgressIntervalRef s with
     | None => True
     | Some a => exists t, a = Int t /\ 0 <= t < speed * totalSlides /\ (100 | t)
     end.

Definition paced (speed totalSlides : Z) (s : State) : Prop :=
  steady totalSlides s /\ loopTimed speed totalSlides s.

(** A live loop interval was registered by [handleLoopProgress], whose
    callers test [autoScroll] and a positive [speed]. *)
Definition loopTimerGuard (autoScroll : bool) (speed : Z) (s : State) : Prop :=
  loopProgressIntervalRef s <> None -> autoScroll = true /\ 0 < speed.

(** What a hook without [autoScroll] looks like at any time. *)
Definition idle (s : State) : Prop :=
  isVisible s = false
  /\ slideProgressIntervalRef s = None
  /\ loopProgressIntervalRef s = None
  /\ loopProgress s = Fin 0
  /\ (slideTimeProgress s = Fin 0 \/ slideTimeProgress s = Fin 100).

(** The slide interval that [startSlideProgress] leaves: a new one at 0
    with [autoScroll] and a positive [speed], the old one otherwise. *)
Definition restartedSlideInterval (autoScroll : bool) (speed : Z) (s : State)
    : option number :=
  if autoScroll && (0 <? speed) then Some (Int 0) else slideProgressIntervalRef s.

(** ** Proof automation *)

(** Evaluates the setters, the projections and the helpers that call no
    other part of the hook, on a state given by its fields; the arithmetic
    of [Js] is left alone. *)
Ltac leaf_eval :=
  cbv beta iota zeta delta
    [startSlideProgress handleLoopProgress updateIndexes
     clearSlideInterval clearLoopInterval setIndexState
     setCurrentSlideRef setSlideTimeProgress setTotalProgress
     setLoopProgress setBulletProgress setDirection setIsVisible
     setSlideProgressIntervalRef setLoopProgressIntervalRef setIsAnimating
     setIsInitialized indexState currentSlideRef slideTimeProgress
     totalProgress loopProgress bulletProgress direction isVisible
     slideProgressIntervalRef loopProgressIntervalRef isAnimating
     isInitialized currentSlide prevIndex nextIndex].

Ltac break_if :=
  match goal with
  | |- context [if ?b then _ else _] => destruct b eqn:?
  | |- context [match ?o with Some _ => _ | None => _ end] => destruct o eqn:?
  end.

Ltac leaf_cases := leaf_eval; repeat (break_if; cbv beta iota).

Ltac state_fields s :=
  destruct s as [ix ref stp tp lp bp d v st lt an ini].

(** ** Invariants of the reachable states *)

Section Invariants.

Variables (autoScroll loop : bool) (speed totalSlides : Z).

Local Abbreviation reachable := (@reachable autoScroll loop speed totalSlides).
Local Abbreviation step := (step autoScroll loop speed totalSlides).
Local Abbreviation run := (run autoScroll loop speed totalSlides).
Local Abbreviation nextSlide := (nextSlide autoScroll loop speed totalSlides).
Local Abbreviation prevSlide := (prevSlide autoScroll loop speed totalSlides).
Local Abbreviation goToSlide := (goToSlide autoScroll loop speed totalSlides).
Local Abbreviation slideIntervalCallback :=
  (slideIntervalCallback autoScroll loop speed totalSlides).
Local Abbreviation loopIntervalCallback :=
  (loopIntervalCallback speed totalSlides).
Local Abbreviation visibilityEffect :=
  (visibilityEffect autoScroll loop speed totalSlides).
Local Abbreviation autoScrollEffect := (autoScrollEffect autoScroll speed).
Local Abbreviation commit := (commit totalSlides).
Local Abbreviation progressEffect := (progressEffect totalSlides).
Local Abbreviation slideTimerGuard := (slideTimerGuard autoScroll speed).

Lemma reachable_run events s : reachable s -> reachable (run events s).
Proof.
  revert s. induction events as [|e events IH]; intros s Hs.
  - exact Hs.
  - apply IH. now apply reachable_step.
Qed.

(** *** The ref mirror and the re-entrancy lock *)

Lemma settled_nextSlide s : settled s -> settled (nextSlide s).
Proof.
  unfold settled, nextSlide. state_fields s. cbn.
  intros [-> ->]. leaf_cases; auto.
Qed.

Lemma settled_prevSlide s : settled s -> settled (prevSlide s).
Proof.
  unfold settled, prevSlide. state_fields s. cbn.
  intros [-> ->]. leaf_cases; auto.
Qed.

Lemma settled_goToSlide index s : settled s -> settled (goToSlide index s).
Proof.
  unfold settled, goToSlide. state_fields s. cbn.
  intros [-> ->]. leaf_cases; auto.
Qed.

Lemma settled_slideIntervalCallback s :
  settled s -> settled (slideIntervalCallback s).
Proof.
  intros Hs. unfold slideIntervalCallback.
  destruct (slideProgressIntervalRef s) as [progressTime|]; [|exact Hs].
  cbv zeta. repeat break_if; try apply settled_nextSlide;
    revert Hs; unfold settled; state_fields s; leaf_eval; auto.
Qed.

Lemma settled_loopIntervalCallback s :
  settled s -> settled (loopIntervalCallback s).
Proof.
  unfold settled, loopIntervalCallback. state_fields s. cbn.
  intros [-> ->]. leaf_cases; auto.
Qed.

Lemma settled_visibilityEffect s : settled s -> settled (visibilityEffect s).
Proof.
  intros Hs. unfold visibilityEffect.
  destruct (negb (isVisible s)); [|now apply settled_goToSlide].
  revert Hs. unfold settled. state_fields s. leaf_eval. auto.
Qed.

Lemma settled_autoScrollEffect s : settled s -> settled (autoScrollEffect s).
Proof.
  unfold settled, autoScrollEffect. state_fields s. cbn.
  intros [-> ->]. leaf_cases; auto.
Qed.

Lemma settled_progressEffect s : settled s -> settled (progressEffect s).
Proof.
  unfold settled, progressEffect. state_fields s. cbn.
  intros [-> ->]. leaf_cases; auto.
Qed.

Lemma settled_commit s : settled s -> settled (commit s).
Proof.
  intros Hs. unfold commit.
  destruct (isInitialized s); [now apply settled_progressEffect | exact Hs].
Qed.

Lemma settled_step e s : settled s -> settled (step e s).
Proof.
  intros Hs. destruct e; unfold step.
  - destruct (isInitialized s); [exact Hs|].
    now apply settled_progressEffect, settled_autoScrollEffect,
      settled_visibilityEffect.
  - now apply settled_commit, settled_nextSlide.
  - now apply settled_commit, settled_prevSlide.
  - now apply settled_commit, settled_goToSlide.
  - destruct (autoScroll && isInitialized s); [|exact Hs].
    destruct (Bool.eqb isIntersecting (isVisible s)); [exact Hs|].
    cbv zeta.
    apply settled_commit, settled_autoScrollEffect, settled_visibilityEffect.
    revert Hs. unfold settled, autoScrollCleanup. state_fields s.
    leaf_eval. auto.
  - now apply settled_commit, settled_slideIntervalCallback.
  - now apply settled_commit, settled_loopIntervalCallback.
Qed.

Lemma reachable_settled s : reachable s -> settled s.
Proof.
  induction 1 as [|e s _ IH].
  - split; reflexivity.
  - now apply settled_step.
Qed.

(** *** The slide interval and the configuration *)

Lemma startSlideProgress_guard b :
  negb autoScroll || (Int speed <=? Int 0)%js = b ->
  b = false -> autoScroll = true /\ 0 < speed.
Proof.
  intros <- Hb. apply orb_false_elim in Hb as [Ha Hs].
  apply negb_false_iff in Ha. cbn in Hs. apply Z.leb_gt in Hs. auto.
Qed.

Ltac guard_cases :=
  leaf_cases; intros Hne; try congruence;
  eauto using startSlideProgress_guard.

Lemma slideTimerGuard_nextSlide s :
  slideTimerGuard s -> slideTimerGuard (nextSlide s).
Proof.
  unfold slideTimerGuard, nextSlide. state_fields s. cbn. intros H.
  guard_cases.
Qed.

Lemma slideTimerGuard_prevSlide s :
  slideTimerGuard s -> slideTimerGuard (prevSlide s).
Proof.
  unfold slideTimerGuard, prevSlide. state_fields s. cbn. intros H.
  guard_cases.
Qed.

Lemma slideTimerGuard_goToSlide index s :
  slideTimerGuard s -> slideTimerGuard (goToSlide index s).
Proof.
  unfold slideTimerGuard, goToSlide. state_fields s. cbn. intros H.
  guard_cases.
Qed.

Lemma slideTimerGuard_slideIntervalCallback s :
  slideTimerGuard s -> slideTimerGuard (slideIntervalCallback s).
Proof.
  intros Hs. unfold slideIntervalCallback.
  destruct (slideProgressIntervalRef s) as [progressTime|] eqn:E; [|exact Hs].
  assert (Hcfg : autoScroll = true /\ 0 < speed)
    by (apply Hs; rewrite E; discriminate).
  cbv zeta. repeat break_if; try apply slideTimerGuard_nextSlide;
    intros _; exact Hcfg.
Qed.

Lemma slideTimerGuard_loopIntervalCallback s :
  slideTimerGuard s -> slideTimerGuard (loopIntervalCallback s).
Proof.
  unfold slideTimerGuard, loopIntervalCallback. state_fields s. cbn. intros H.
  guard_cases.
Qed.

Lemma slideTimerGuard_visibilityEffect s :
  slideTimerGuard s -> slideTimerGuard (visibilityEffect s).
Proof.
  intros Hs. unfold visibilityEffect.
  destruct (negb (isVisible s)); [|now apply slideTimerGuard_goToSlide].
  unfold slideTimerGuard. state_fields s. leaf_eval. congruence.
Qed.

Lemma slideTimerGuard_autoScrollEffect s :
  slideTimerGuard s -> slideTimerGuard (autoScrollEffect s).
Proof.
  unfold slideTimerGuard, autoScrollEffect. state_fields s. cbn. intros H.
  guard_cases.
Qed.

Lemma slideTimerGuard_commit s :
  slideTimerGuard s -> slideTimerGuard (commit s).
Proof.
  unfold slideTimerGuard, commit, progressEffect. state_fields s. cbn.
  intros H. guard_cases.
Qed.

Lemma slideTimerGuard_step e s : slideTimerGuard s -> slideTimerGuard (step e s).
Proof.
  intros Hs. destruct e; unfold step.
  - destruct (isInitialized s) eqn:E; [exact Hs|].
    apply slideTimerGuard_visibilityEffect,
      slideTimerGuard_autoScrollEffect in Hs.
    revert Hs. unfold slideTimerGuard, progressEffect.
    destruct (autoScrollEffect (visibilityEffect s)). leaf_eval. auto.
  - now apply slideTimerGuard_commit, slideTimerGuard_nextSlide.
  - now apply slideTimerGuard_commit, slideTimerGuard_prevSlide.
  - now apply slideTimerGuard_commit, slideTimerGuard_goToSlide.
  - destruct (autoScroll && isInitialized s); [|exact Hs].
    destruct (Bool.eqb isIntersecting (isVisible s)); [exact Hs|].
    cbv zeta.
    apply slideTimerGuard_commit, slideTimerGuard_autoScrollEffect,
      slideTimerGuard_visibilityEffect.
    unfold slideTimerGuard, autoScrollCleanup. state_fields s.
    leaf_eval. congruence.
  - now apply slideTimerGuard_commit, slideTimerGuard_slideIntervalCallback.
  - now apply slideTimerGuard_commit, slideTimerGuard_loopIntervalCallback.
Qed.

(** The part of the slide-timer condition that does hold everywhere:
    a live slide interval implies [autoScroll] and [speed > 0]. *)
Lemma reachable_slideTimerGuard s :
  reachable s -> slideProgressIntervalRef s <> None ->
  autoScroll = true /\ 0 < speed.
Proof.
  induction 1 as [|e s _ IH].
  - intros H. now contradiction H.
  - now apply slideTimerGuard_step.
Qed.

(** [goToSlide] on the slide that is already current returns at its
    first line. *)
Lemma goToSlide_current_noop z s :
  currentSlideRef s = Int z -> goToSlide (Int z) s = s.
Proof.
  intros H. unfold goToSlide. rewrite H. cbn. now rewrite Z.eqb_refl.
Qed.

End Invariants.

(** ** Navigation *)

Section Navigation.

Variables (autoScroll loop : bool) (speed totalSlides : Z).

Local Abbreviation nextSlide := (nextSlide autoScroll loop speed totalSlides).
Local Abbreviation prevSlide := (prevSlide autoScroll loop speed totalSlides).
Local Abbreviation goToSlide := (goToSlide autoScroll loop speed totalSlides).
Local Abbreviation commit := (commit totalSlides).
Local Abbreviation nextCandidate := (nextCandidate loop totalSlides).

(** [commit] writes the two derived percentages and nothing else. *)
Lemma commit_frame s :
  indexState (commit s) = indexState s
  /\ currentSlideRef (commit s) = currentSlideRef s
  /\ slideTimeProgress (commit s) = slideTimeProgress s
  /\ loopProgress (commit s) = loopProgress s
  /\ direction (commit s) = direction s
  /\ isVisible (commit s) = isVisible s
  /\ slideProgressIntervalRef (commit s) = slideProgressIntervalRef s
  /\ loopProgressIntervalRef (commit s) = loopProgressIntervalRef s
  /\ isInitialized (commit s) = isInitialized s.
Proof.
  unfold commit, progressEffect. state_fields s.
  leaf_cases; repeat split; reflexivity.
Qed.

(** [nextSlide] either returns early with the index state untouched, or
    relinks it around the candidate. *)
Lemma nextSlide_indexState s :
  settled s ->
  if isInitialized s
     && (loop || negb (nextCandidate (currentSlide (indexState s))
                         === currentSlide (indexState s))%js)
  then currentSlide (indexState (nextSlide s))
         = nextCandidate (currentSlide (indexState s))
       /\ relinked loop totalSlides s (nextSlide s)
  else indexState (nextSlide s) = indexState s.
Proof.
  unfold settled, relinked, nextCandidate, nextSlide.
  state_fields s. cbn. intros [-> ->].
  destruct ini, loop; cbn [andb orb negb]; leaf_cases; auto; discriminate.
Qed.

Lemma prevSlide_indexState s :
  settled s -> relinked loop totalSlides s (prevSlide s).
Proof.
  unfold settled, relinked, prevSlide.
  state_fields s. cbn. intros [-> ->]. leaf_cases; auto.
Qed.

Lemma goToSlide_indexState index s :
  settled s ->
  if (index === currentSlide (indexState s))%js
  then goToSlide index s = s
  else currentSlide (indexState (goToSlide index s))
         = normalizedTarget loop totalSlides index
       /\ relinked loop totalSlides s (goToSlide index s).
Proof.
  unfold settled, relinked, normalizedTarget, goToSlide.
  state_fields s. cbn. intros [-> ->].
  destruct (index === currentSlide ix)%js; leaf_cases; auto.
Qed.

(** The direction set by [goToSlide] when it does not return early. *)
Lemma goToSlide_direction index s :
  (index === currentSlideRef s)%js = false ->
  direction (goToSlide index s)
  = if (normalizedTarget loop totalSlides index >? currentSlideRef s)%js
    then next else prev.
Proof.
  unfold normalizedTarget, goToSlide. state_fields s. cbn. intros ->.
  leaf_cases; reflexivity.
Qed.

(** What [nextSlide], [prevSlide] and [goToSlide] leave in the loop
    interval and in [loopProgress]. *)
Lemma nextSlide_loop_frame s :
  loopProgressIntervalRef (nextSlide s) = loopProgressIntervalRef s
  /\ loopProgress (nextSlide s) = loopProgress s.
Proof.
  unfold nextSlide. state_fields s. leaf_cases; split; reflexivity.
Qed.

Lemma prevSlide_loop_frame s :
  loopProgressIntervalRef (prevSlide s) = loopProgressIntervalRef s
  /\ loopProgress (prevSlide s) = loopProgress s.
Proof.
  unfold prevSlide. state_fields s. leaf_cases; split; reflexivity.
Qed.

Lemma goToSlide_loop_seed index s :
  loopProgressIntervalRef (goToSlide index s)
  = if (index === currentSlideRef s)%js then loopProgressIntervalRef s
    else if autoScroll && (Int speed >? Int 0)%js
         then Some (normalizedTarget loop totalSlides index * Int speed)%js
         else None.
Proof.
  unfold normalizedTarget, goToSlide. state_fields s.
  leaf_cases; reflexivity.
Qed.

(** At the last slide without looping, [nextSlide] takes its terminal
    branch. *)
Lemma nextSlide_terminal s :
  loop = false ->
  isInitialized s = true ->
  isAnimating s = false ->
  currentSlideRef s = Int (totalSlides - 1) ->
  nextSlide s
  = setSlideTimeProgress (Fin 100) (clearSlideInterval (setDirection next s)).
Proof.
  unfold nextSlide. state_fields s.
  cbn [isInitialized isAnimating currentSlideRef]. intros -> -> -> ->.
  assert (E : (Js.min (Int (totalSlides - 1) + Int 1) (Int totalSlides - Int 1)
                 === Int (totalSlides - 1))%js = true).
  { cbn. apply Z.eqb_eq. lia. }
  leaf_eval. cbn [orb negb andb]. rewrite E. reflexivity.
Qed.

End Navigation.

(** ** Index state *)

(** C1.  The exposed indices do not stay inside [[0, totalSlides-1]].
    With [loop = true] and five slides, [goToSlide(-1)] on a mounted
    instance computes [-1 % 5], which is [-1] in JavaScript, and that
    value becomes [currentSlide]; [prevSlide] adds [totalSlides] before
    taking the remainder, [goToSlide] does not.  With a single slide the
    initial [nextIndex] is the literal 1, outside [[0, 0]]. *)
Theorem goToSlide_negative_index_leaves_range :
  let s := run false true 3000 5 [Mount; GoToSlide (-1)] (initialState 5) in
  reachable false true 3000 5 s
  /\ currentSlide (indexState s) = Int (-1)
  /\ between 0 (5 - 1) (currentSlide (indexState s)) = false
  /\ currentSlide (indexState (run false true 3000 5 [Mount; PrevSlide] (initialState 5)))
     = Int 4
  /\ between 0 (1 - 1) (nextIndex (indexState (initialState 1))) = false.
Proof.
  split.
  - apply reachable_run, reachable_initial.
  - vm_compute. repeat split; reflexivity.
Qed.

(** C2, as stated, fails: after [goToSlide(3)] from slide 0 of five
    looping slides, [prevIndex] is 0, the slide that was current before the
    call, and not the recomputed [currentSlide - 1 = 2]. *)
Lemma goToSlide_prevIndex_is_previous_slide :
  let s := run false true 3000 5 [Mount] (initialState 5) in
  let s' := step false true 3000 5 (GoToSlide 3) s in
  currentSlide (indexState s') = Int 3
  /\ prevIndex (indexState s') = currentSlide (indexState s)
  /\ recomputedPrevIndex true 5 (currentSlide (indexState s')) = Int 2
  /\ prevIndex (indexState s')
     <> recomputedPrevIndex true 5 (currentSlide (indexState s')).
Proof.
  vm_compute. repeat split; try reflexivity. discriminate.
Qed.

(** C2, amended.  In every reachable state, a navigation call either
    leaves the index state untouched ([goToSlide] to the current slide,
    [nextSlide] before initialization or at the last slide without
    looping) or relinks it: [nextIndex] is recomputed from the new
    [currentSlide], [loop] and [totalSlides], and [prevIndex] is set to the
    slide that was current before the call. *)
Theorem navigation_relinks_index_state
    (autoScroll loop : bool) (speed totalSlides : Z) (s : State) (index : Z) :
  reachable autoScroll loop speed totalSlides s ->
  relinked loop totalSlides s (step autoScroll loop speed totalSlides PrevSlide s)
  /\ (if (Int index === currentSlide (indexState s))%js
      then indexState (step autoScroll loop speed totalSlides (GoToSlide index) s)
           = indexState s
      else relinked loop totalSlides s
             (step autoScroll loop speed totalSlides (GoToSlide index) s))
  /\ (if isInitialized s
         && (loop || negb (nextCandidate loop totalSlides (currentSlide (indexState s))
                             === currentSlide (indexState s))%js)
      then relinked loop totalSlides s
             (step autoScroll loop speed totalSlides NextSlide s)
      else indexState (step autoScroll loop speed totalSlides NextSlide s)
           = indexState s).
Proof.
  intros Hs. apply reachable_settled in Hs.
  unfold relinked, step.
  repeat split.
  - destruct (commit_frame totalSlides (prevSlide autoScroll loop speed totalSlides s))
      as [-> _]. now apply prevSlide_indexState.
  - destruct (commit_frame totalSlides (prevSlide autoScroll loop speed totalSlides s))
      as [-> _]. now apply prevSlide_indexState.
  - destruct (commit_frame totalSlides
                (goToSlide autoScroll loop speed totalSlides (Int index) s))
      as [-> _].
    pose proof (goToSlide_indexState autoScroll loop speed totalSlides (Int index) s Hs) as H.
    destruct (Int index === currentSlide (indexState s))%js.
    + now rewrite H.
    + apply H.
  - destruct (commit_frame totalSlides (nextSlide autoScroll loop speed totalSlides s))
      as [-> _].
    pose proof (nextSlide_indexState autoScroll loop speed totalSlides s Hs) as H.
    destruct (isInitialized s && _).
    + apply H.
    + exact H.
Qed.

Lemma navigation_relinks_index_state_witness :
  let s := run false true 3000 5 [Mount] (initialState 5) in
  relinked true 5 s (step false true 3000 5 (GoToSlide 3) s)
  /\ relinked true 5 s (step false true 3000 5 PrevSlide s)
  /\ relinked true 5 s (step false true 3000 5 NextSlide s).
Proof.
  intros s.
  assert (Hs : reachable false true 3000 5 s)
    by (apply reachable_run, reachable_initial).
  destruct (navigation_relinks_index_state false true 3000 5 s 3 Hs)
    as (Hprev & Hgo & Hnext).
  repeat split; solve [apply Hgo | apply Hprev | apply Hnext].
Defined.

(** C5, as stated, fails: from slide 2 of five looping slides,
    [goToSlide(6)] has a raw target above the current slide, yet the
    direction becomes ['prev'], because the comparison is made on the
    wrapped target 1. *)
Lemma goToSlide_direction_not_from_raw_target :
  let s := run false true 3000 5 [Mount; GoToSlide 2] (initialState 5) in
  currentSlide (indexState s) = Int 2
  /\ (Int 6 === currentSlide (indexState s))%js = false
  /\ (Int 6 >? currentSlide (indexState s))%js = true
  /\ direction (step false true 3000 5 (GoToSlide 6) s) = prev.
Proof.
  vm_compute. repeat split; reflexivity.
Qed.

(** C5, amended.  In every reachable state, [goToSlide(index)] with
    [index] different from the current slide makes the target after
    wrapping (looping) or clamping (non-looping) the new current slide, and
    sets the direction to ['next'] if that normalized target is greater
    than the slide that was current, and to ['prev'] otherwise. *)
Theorem goToSlide_direction_from_normalized_target
    (autoScroll loop : bool) (speed totalSlides : Z) (s : State) (index : Z) :
  reachable autoScroll loop speed totalSlides s ->
  (Int index === currentSlide (indexState s))%js = false ->
  let s' := step autoScroll loop speed totalSlides (GoToSlide index) s in
  currentSlide (indexState s') = normalizedTarget loop totalSlides (Int index)
  /\ direction s'
     = if (currentSlide (indexState s') >? currentSlide (indexState s))%js
       then next else prev.
Proof.
  intros Hs Hne. apply reachable_settled in Hs.
  pose proof (goToSlide_indexState autoScroll loop speed totalSlides (Int index) s Hs)
    as Hix.
  rewrite Hne in Hix. destruct Hix as [Hcur _]. destruct Hs as [Href _].
  cbv zeta. unfold step.
  destruct (commit_frame totalSlides
              (goToSlide autoScroll loop speed totalSlides (Int index) s))
    as (-> & _ & _ & _ & -> & _).
  rewrite Hcur. split; [reflexivity|].
  rewrite <- Href in *. now apply goToSlide_direction.
Qed.

Lemma goToSlide_direction_from_normalized_target_witness :
  let s := run false true 3000 5 [Mount; GoToSlide 2] (initialState 5) in
  let s' := step false true 3000 5 (GoToSlide 6) s in
  currentSlide (indexState s') = normalizedTarget true 5 (Int 6)
  /\ direction s'
     = if (currentSlide (indexState s') >? currentSlide (indexState s))%js
       then next else prev.
Proof.
  intros s.
  apply (goToSlide_direction_from_normalized_target false true 3000 5 s 6).
  - apply reachable_run, reachable_initial.
  - reflexivity.
Defined.

(** C8, as stated, fails before the first effect flush.  After a
    [goToSlide(4)] made before mounting, a hook with [loop = false],
    [autoScroll] and five slides is on its last slide with a live slide
    interval; [nextSlide()] then returns at its
    [isAnimating.current || !isInitialized.current] test: the interval is
    not cleared and [slideTimeProgress] stays 0. *)
Lemma nextSlide_at_last_slide_before_initialization :
  let s := run true false 3000 5 [GoToSlide 4] (initialState 5) in
  let s' := step true false 3000 5 NextSlide s in
  reachable true false 3000 5 s
  /\ isInitialized s = false
  /\ currentSlide (indexState s) = Int (5 - 1)
  /\ s' = s
  /\ slideProgressIntervalRef s' = Some (Int 0)
  /\ slideProgressIntervalRef s' <> None
  /\ slideTimeProgress s' = Fin 0
  /\ slideTimeProgress s' <> Fin 100.
Proof.
  split.
  - apply reachable_run, reachable_initial.
  - vm_compute. repeat split; try reflexivity; discriminate.
Qed.

(** C8, amended.  In a reachable, initialized state with [loop = false] and
    [currentSlide = totalSlides - 1], [nextSlide()] leaves [currentSlide],
    [prevIndex] and [nextIndex] as they are, clears the slide interval and
    sets [slideTimeProgress] to 100; the call is the terminal branch of
    [nextSlide], which only sets the direction besides. *)
Theorem nextSlide_at_last_slide_without_loop
    (autoScroll : bool) (speed totalSlides : Z) (s : State) :
  reachable autoScroll false speed totalSlides s ->
  isInitialized s = true ->
  currentSlide (indexState s) = Int (totalSlides - 1) ->
  let s' := step autoScroll false speed totalSlides NextSlide s in
  indexState s' = indexState s
  /\ slideProgressIntervalRef s' = None
  /\ slideTimeProgress s' = Fin 100
  /\ nextSlide autoScroll false speed totalSlides s
     = setSlideTimeProgress (Fin 100) (clearSlideInterval (setDirection next s)).
Proof.
  intros Hs Hini Hlast. apply reachable_settled in Hs. destruct Hs as [Href Han].
  rewrite <- Href in Hlast.
  pose proof (nextSlide_terminal autoScroll false speed totalSlides s
                eq_refl Hini Han Hlast) as Hterm.
  cbv zeta. unfold step.
  destruct (commit_frame totalSlides (nextSlide autoScroll false speed totalSlides s))
    as (-> & _ & -> & _ & _ & _ & -> & _).
  rewrite Hterm. repeat split; reflexivity.
Qed.

Lemma nextSlide_at_last_slide_without_loop_witness :
  let s := run true false 3000 5 [Mount; Intersect true; GoToSlide 4] (initialState 5) in
  let s' := step true false 3000 5 NextSlide s in
  currentSlide (indexState s) = Int (5 - 1)
  /\ slideProgressIntervalRef s = Some (Int 0)
  /\ indexState s' = indexState s
  /\ slideProgressIntervalRef s' = None
  /\ slideTimeProgress s' = Fin 100.
Proof.
  intros s s'.
  assert (Hs : reachable true false 3000 5 s)
    by (apply reachable_run, reachable_initial).
  destruct (nextSlide_at_last_slide_without_loop true 3000 5 s Hs eq_refl eq_refl)
    as (Hix & Htimer & Hprogress & _).
  repeat split; solve [reflexivity | exact Hix | exact Htimer | exact Hprogress].
Defined.

(** ** Progress values *)

(** C3.  With a single slide the bullet progress is not a defined number:
    [calculateBulletProgress(1, 0)] divides 0 by [totalSlides - 1 = 0], so
    the mounted hook exposes [bulletProgress = NaN], outside the documented
    0 to 100.  With no slide at all, [totalProgress] is [1 / 0 * 100], an
    infinity. *)
Theorem bulletProgress_single_slide_is_NaN :
  calculateBulletProgress (Int 1) (Int 0) = RNaN
  /\ (forall autoScroll loop speed,
        bulletProgress (run autoScroll loop speed 1 [Mount] (initialState 1)) = RNaN)
  /\ percent (bulletProgress (run false true 3000 1 [Mount] (initialState 1))) = false
  /\ totalProgress (run false true 3000 0 [Mount] (initialState 0)) = PInf.
Proof.
  repeat split; reflexivity.
Qed.

(** C9.  [loopProgress] goes above 100.  With [speed = 320] and two slides
    the cycle lasts 640, which is not a multiple of the tick of 100: the
    seventh tick of the loop interval computes [700 / 640 * 100 = 109.375]
    and exposes it before the accumulator is reset. *)
Theorem loopProgress_overshoots_100 :
  let ticks := [SlideTick; LoopTick; SlideTick; LoopTick; SlideTick; LoopTick;
                SlideTick; LoopTick; SlideTick; LoopTick; SlideTick; LoopTick;
                SlideTick; LoopTick] in
  let s := run true true 320 2 (Mount :: Intersect true :: ticks) (initialState 2) in
  reachable true true 320 2 s
  /\ loopProgress s = Fin (875 # 8)
  /\ percent (loopProgress s) = false
  /\ loopProgressIntervalRef s = Some (Int 0).
Proof.
  split.
  - apply reachable_run, reachable_initial.
  - vm_compute. repeat split; reflexivity.
Qed.

(** ** Timers and visibility *)

(** C4.  When visibility comes back, the loop interval restarts from 0, not
    from [currentSlide * speed].  The visibility effect does call
    [goToSlide(currentSlideRef.current)], but that call returns at the
    [index === currentSlideRef.current] test and starts nothing; both
    intervals are started afterwards by the auto-scroll effect, which calls
    [handleLoopProgress()] with its default seed 0.  Here: three looping
    slides, [speed = 1000], hidden and shown again on slide 2. *)
Theorem visibility_restore_seeds_loop_timer_at_zero :
  let s := run true true 1000 3
             [Mount; Intersect true; NextSlide; NextSlide; Intersect false]
             (initialState 3) in
  let shown := autoScrollCleanup (setIsVisible true s) in
  let s' := step true true 1000 3 (Intersect true) s in
  reachable true true 1000 3 s
  /\ isVisible s = false
  /\ isVisible s' = true
  /\ currentSlide (indexState s) = Int 2
  /\ currentSlide (indexState s') = Int 2
  /\ visibilityEffect true true 1000 3 shown = shown
  /\ slideProgressIntervalRef s' = Some (Int 0)
  /\ loopProgressIntervalRef s' = Some (Int 0)
  /\ loopProgressIntervalRef s'
     <> Some (currentSlide (indexState s') * Int 1000)%js.
Proof.
  split.
  - apply reachable_run, reachable_initial.
  - vm_compute. repeat split; try reflexivity. discriminate.
Qed.

(** C6.  Before the first effect flush ([isInitialized] still false) only
    [nextSlide()] is ignored.  [prevSlide()] and [goToSlide(index)] have no
    such test: on five looping slides they move the current slide to 4 and
    to 2, set the direction, and with [autoScroll] the latter also starts
    both intervals. *)
Theorem navigation_before_initialization_not_ignored :
  let s := initialState 5 in
  isInitialized s = false
  /\ step false true 3000 5 NextSlide s = s
  /\ step false true 3000 5 PrevSlide s <> s
  /\ currentSlide (indexState (step false true 3000 5 PrevSlide s)) = Int 4
  /\ direction (step false true 3000 5 PrevSlide s) = prev
  /\ step false true 3000 5 (GoToSlide 2) s <> s
  /\ currentSlide (indexState (step false true 3000 5 (GoToSlide 2) s)) = Int 2
  /\ slideProgressIntervalRef (step true true 3000 5 (GoToSlide 2) s) = Some (Int 0)
  /\ loopProgressIntervalRef (step true true 3000 5 (GoToSlide 2) s)
     = Some (Int 6000).
Proof.
  vm_compute. repeat split; try reflexivity; discriminate.
Qed.

(** C7.  The slide interval can be live while [isVisible] is false.
    [startSlideProgress] tests [autoScroll] and [speed] only, so after the
    slider has left the viewport a [goToSlide(1)] registers the interval
    again, and its ticks advance [slideTimeProgress]. *)
Theorem goToSlide_starts_slide_timer_while_hidden :
  let s := run true true 1000 3
             [Mount; Intersect true; Intersect false; GoToSlide 1]
             (initialState 3) in
  let s' := step true true 1000 3 SlideTick s in
  reachable true true 1000 3 s
  /\ isVisible s = false
  /\ slideProgressIntervalRef s = Some (Int 0)
  /\ isVisible s' = false
  /\ slideProgressIntervalRef s' = Some (Int 100)
  /\ slideTimeProgress s' = Fin 10.
Proof.
  split.
  - apply reachable_run, reachable_initial.
  - vm_compute. repeat split; reflexivity.
Qed.

(** C10.  [nextSlide()] and [prevSlide()] leave the loop interval and
    [loopProgress] exactly as they were, in every state; among the
    navigation calls only [goToSlide] with an index different from the
    current slide replaces the loop interval, seeding it with the
    normalized target times [speed] when [autoScroll] is set and [speed] is
    positive.  So after a manual [nextSlide()] the loop accumulator no
    longer matches [currentSlide * speed]: seeded with 1000 on slide 1, it
    still holds 1000 on slide 2. *)
Theorem manual_navigation_keeps_loop_timer
    (autoScroll loop : bool) (speed totalSlides : Z) (s : State) (index : Z) :
  (loopProgressIntervalRef (step autoScroll loop speed totalSlides NextSlide s)
     = loopProgressIntervalRef s
   /\ loopProgress (step autoScroll loop speed totalSlides NextSlide s)
      = loopProgress s)
  /\ (loopProgressIntervalRef (step autoScroll loop speed totalSlides PrevSlide s)
        = loopProgressIntervalRef s
      /\ loopProgress (step autoScroll loop speed totalSlides PrevSlide s)
         = loopProgress s)
  /\ loopProgressIntervalRef
       (step autoScroll loop speed totalSlides (GoToSlide index) s)
     = (if (Int index === currentSlideRef s)%js then loopProgressIntervalRef s
        else if autoScroll && (Int speed >? Int 0)%js
             then Some (normalizedTarget loop totalSlides (Int index) * Int speed)%js
             else None)
  /\ (let s0 := run true true 1000 3 [Mount; Intersect true; GoToSlide 1]
                  (initialState 3) in
      let s1 := step true true 1000 3 NextSlide s0 in
      loopProgressIntervalRef s0
        = Some (currentSlide (indexState s0) * Int 1000)%js
      /\ currentSlide (indexState s1) = Int 2
      /\ loopProgressIntervalRef s1 = Some (Int 1000)
      /\ loopProgressIntervalRef s1
         <> Some (currentSlide (indexState s1) * Int 1000)%js).
Proof.
  unfold step.
  repeat match goal with
  | |- context [commit totalSlides ?x] =>
      let H1 := fresh in let H2 := fresh in
      destruct (commit_frame totalSlides x)
        as (_ & _ & _ & H1 & _ & _ & _ & H2 & _);
      rewrite ?H1, ?H2; clear H1 H2
  end.
  split; [apply nextSlide_loop_frame|].
  split; [apply prevSlide_loop_frame|].
  split; [apply goToSlide_loop_seed|].
  vm_compute. repeat split; try reflexivity. discriminate.
Qed.

(** ** Percentages *)

Section Percentages.

(** [a / b * 100] for a positive divisor, as one reduced fraction. *)
Lemma pct_value a b :
  0 < b -> rmul (div (Int a) (Int b)) (Int 100) = Fin (Qred (a * 100 # Z.to_pos b)).
Proof.
  intros Hb. unfold div, rmul.
  destruct (Z.eqb_spec b 0) as [->|_]; [lia|].
  f_equal. apply Qred_complete. rewrite Qred_correct.
  destruct b as [|p|p]; try lia.
  unfold Qeq, Qdiv, Qinv, Qmult, inject_Z. cbn. lia.
Qed.

(** The test [a / b * 100 >= 100] is the test [b <= a]. *)
Lemma pct_ge_100 a b :
  0 < b -> rge (rmul (div (Int a) (Int b)) (Int 100)) (Int 100) = (b <=? a).
Proof.
  intros Hb. rewrite pct_value by assumption. unfold rge.
  apply eq_true_iff_eq. rewrite Qle_bool_iff, Qred_correct, Z.leb_le.
  destruct b as [|p|p]; try lia.
  unfold Qle, inject_Z. cbn. lia.
Qed.

Lemma pct_percent a b :
  0 < b -> 0 <= a <= b ->
  percent (rmul (div (Int a) (Int b)) (Int 100)) = true.
Proof.
  intros Hb Ha. rewrite pct_value by assumption. unfold percent, rge, rle.
  apply andb_true_intro.
  rewrite !Qle_bool_iff, !Qred_correct.
  destruct b as [|p|p]; try lia.
  unfold Qle, inject_Z. cbn. lia.
Qed.

Lemma pct_zero b : 0 < b -> rmul (div (Int 0) (Int b)) (Int 100) = Fin 0.
Proof.
  intros Hb. rewrite pct_value by assumption. reflexivity.
Qed.

Lemma pct_full b : 0 < b -> rmul (div (Int b) (Int b)) (Int 100) = Fin 100.
Proof.
  intros Hb. rewrite pct_value by assumption.
  change (Fin 100) with (Fin (Qred 100)). f_equal. apply Qred_complete.
  destruct b as [|p|p]; try lia.
  unfold Qeq, inject_Z. cbn. lia.
Qed.

Lemma between_spec lo hi a :
  between lo hi a = true <-> exists c, a = Int c /\ lo <= c <= hi.
Proof.
  destruct a as [c|]; cbn.
  - rewrite andb_true_iff, !Z.leb_le. split.
    + intros H. exists c. auto.
    + intros (c' & [= <-] & H). exact H.
  - split; [discriminate | intros (c & [=] & _)].
Qed.

(** [calculateBulletProgress] clamps the index into the slides before it
    divides. *)
Lemma calculateBulletProgress_value totalSlides a :
  2 <= totalSlides ->
  calculateBulletProgress (Int totalSlides) (Int a)
  = rmul (div (Int (Z.min (Z.max a 0) (totalSlides - 1))) (Int (totalSlides - 1)))
      (Int 100).
Proof.
  intros Ht. unfold calculateBulletProgress. cbn [Js.lt Js.ge Js.le Js.sub].
  destruct (Z.ltb_spec a 0).
  - destruct (Z.leb_spec totalSlides 0); [lia|].
    replace (Z.min (Z.max a 0) (totalSlides - 1)) with 0 by lia. reflexivity.
  - destruct (Z.leb_spec totalSlides a).
    + replace (Z.min (Z.max a 0) (totalSlides - 1)) with (totalSlides - 1) by lia.
      reflexivity.
    + replace (Z.min (Z.max a 0) (totalSlides - 1)) with a by lia. reflexivity.
Qed.

End Percentages.

(** ** The indices stay in range *)

Section IndexRange.

Variables (autoScroll loop : bool) (speed totalSlides : Z).
Hypothesis Htotal : 1 <= totalSlides.

Local Abbreviation inRange := (between 0 (totalSlides - 1)).

Lemma nextCandidate_range a :
  inRange a = true -> inRange (nextCandidate loop totalSlides a) = true.
Proof.
  rewrite !between_spec. intros (c & -> & Hc). unfold nextCandidate.
  destruct loop; cbn.
  - destruct (Z.eqb_spec totalSlides 0); [lia|].
    exists (Z.rem (c + 1) totalSlides). split; [reflexivity|].
    pose proof (Z.rem_bound_pos (c + 1) totalSlides). lia.
  - exists (Z.min (c + 1) (totalSlides - 1)). split; [reflexivity|]. lia.
Qed.

Lemma prevCandidate_range a :
  inRange a = true -> inRange (prevCandidate loop totalSlides a) = true.
Proof.
  rewrite !between_spec. intros (c & -> & Hc). unfold prevCandidate.
  destruct loop; cbn.
  - destruct (Z.eqb_spec totalSlides 0); [lia|].
    exists (Z.rem (c - 1 + totalSlides) totalSlides). split; [reflexivity|].
    pose proof (Z.rem_bound_pos (c - 1 + totalSlides) totalSlides). lia.
  - exists (Z.max (c - 1) 0). split; [reflexivity|]. lia.
Qed.

Lemma normalizedTarget_range index :
  negb loop || (0 <=? index) = true ->
  inRange (normalizedTarget loop totalSlides (Int index)) = true.
Proof.
  rewrite between_spec. unfold normalizedTarget. intros H.
  destruct loop; cbn in *.
  - apply Z.leb_le in H. destruct (Z.eqb_spec totalSlides 0); [lia|].
    exists (Z.rem index totalSlides). split; [reflexivity|].
    pose proof (Z.rem_bound_pos index totalSlides). lia.
  - exists (Z.min (Z.max index 0) (totalSlides - 1)). split; [reflexivity|]. lia.
Qed.

Lemma recomputedNextIndex_range a :
  inRange a = true -> inRange (recomputedNextIndex loop totalSlides a) = true.
Proof.
  rewrite !between_spec. intros (c & -> & Hc). unfold recomputedNextIndex.
  cbn. destruct (Z.eqb_spec c (totalSlides - 1)).
  - destruct loop; eexists; (split; [reflexivity|]); lia.
  - exists (c + 1). split; [reflexivity|]. lia.
Qed.

Lemma prevSlide_currentSlide s :
  settled s ->
  currentSlide (indexState (prevSlide autoScroll loop speed totalSlides s))
  = prevCandidate loop totalSlides (currentSlide (indexState s)).
Proof.
  unfold settled, prevCandidate, prevSlide. state_fields s. cbn.
  intros [-> ->]. leaf_cases; reflexivity.
Qed.

(** Any state whose index state is relinked around an in-range slide. *)
Lemma relinked_range s s' :
  indicesInRange totalSlides s ->
  inRange (currentSlide (indexState s')) = true ->
  relinked loop totalSlides s s' ->
  indicesInRange totalSlides s'.
Proof.
  intros (Hc & _ & _) Hc' [Hn Hp]. unfold indicesInRange.
  rewrite Hn, Hp. auto using recomputedNextIndex_range.
Qed.

Lemma steady_nextSlide s :
  steady totalSlides s -> steady totalSlides (nextSlide autoScroll loop speed totalSlides s).
Proof.
  intros [Hs Hr]. split; [now apply settled_nextSlide|].
  pose proof (nextSlide_indexState autoScroll loop speed totalSlides s Hs) as H.
  destruct (isInitialized s && _).
  - destruct H as [Hc Hl]. apply (relinked_range s); auto.
    rewrite Hc. apply nextCandidate_range, Hr.
  - unfold indicesInRange. rewrite H. exact Hr.
Qed.

Lemma steady_prevSlide s :
  steady totalSlides s -> steady totalSlides (prevSlide autoScroll loop speed totalSlides s).
Proof.
  intros [Hs Hr]. split; [now apply settled_prevSlide|].
  apply (relinked_range s); auto.
  - rewrite prevSlide_currentSlide by assumption. apply prevCandidate_range, Hr.
  - now apply prevSlide_indexState.
Qed.

Lemma steady_goToSlide index s :
  negb loop || (0 <=? index) = true ->
  steady totalSlides s ->
  steady totalSlides (goToSlide autoScroll loop speed totalSlides (Int index) s).
Proof.
  intros Hi [Hs Hr]. split; [now apply settled_goToSlide|].
  pose proof (goToSlide_indexState autoScroll loop speed totalSlides (Int index) s Hs) as H.
  destruct (Int index === currentSlide (indexState s))%js.
  - rewrite H. exact Hr.
  - destruct H as [Hc Hl]. apply (relinked_range s); auto.
    rewrite Hc. now apply normalizedTarget_range.
Qed.

(** On a steady state the visibility effect's [goToSlide] changes nothing. *)
Lemma goToSlide_current_steady s :
  steady totalSlides s ->
  goToSlide autoScroll loop speed totalSlides (currentSlideRef s) s = s.
Proof.
  intros [[Href _] (Hc & _)]. apply between_spec in Hc as (c & Hc & _).
  rewrite Href, Hc. apply goToSlide_current_noop. now rewrite Href.
Qed.

Ltac steady_fields s :=
  unfold steady, settled, indicesInRange; state_fields s; leaf_eval; auto.

Lemma steady_slideIntervalCallback s :
  steady totalSlides s ->
  steady totalSlides (slideIntervalCallback autoScroll loop speed totalSlides s).
Proof.
  intros Hs. unfold slideIntervalCallback.
  destruct (slideProgressIntervalRef s) as [progressTime|]; [|exact Hs].
  cbv zeta. repeat break_if; try apply steady_nextSlide;
    revert Hs; steady_fields s.
Qed.

Lemma steady_loopIntervalCallback s :
  steady totalSlides s -> steady totalSlides (loopIntervalCallback speed totalSlides s).
Proof.
  unfold loopIntervalCallback. steady_fields s. leaf_cases; auto.
Qed.

Lemma steady_visibilityEffect s :
  steady totalSlides s ->
  steady totalSlides (visibilityEffect autoScroll loop speed totalSlides s).
Proof.
  intros Hs. unfold visibilityEffect.
  destruct (negb (isVisible s)).
  - revert Hs. steady_fields s.
  - now rewrite goToSlide_current_steady.
Qed.

Lemma steady_autoScrollEffect s :
  steady totalSlides s -> steady totalSlides (autoScrollEffect autoScroll speed s).
Proof.
  unfold autoScrollEffect. steady_fields s. leaf_cases; auto.
Qed.

Lemma steady_progressEffect s :
  steady totalSlides s -> steady totalSlides (progressEffect totalSlides s).
Proof.
  unfold progressEffect. steady_fields s.
Qed.

Lemma steady_commit s :
  steady totalSlides s -> steady totalSlides (commit totalSlides s).
Proof.
  intros Hs. unfold commit.
  destruct (isInitialized s); [now apply steady_progressEffect | exact Hs].
Qed.

Lemma steady_step e s :
  admissible loop e = true ->
  steady totalSlides s -> steady totalSlides (step autoScroll loop speed totalSlides e s).
Proof.
  intros He Hs. destruct e; unfold step.
  - destruct (isInitialized s); [exact Hs|].
    now apply steady_progressEffect, steady_autoScrollEffect,
      steady_visibilityEffect.
  - now apply steady_commit, steady_nextSlide.
  - now apply steady_commit, steady_prevSlide.
  - now apply steady_commit, steady_goToSlide.
  - destruct (autoScroll && isInitialized s); [|exact Hs].
    destruct (Bool.eqb isIntersecting (isVisible s)); [exact Hs|].
    cbv zeta.
    apply steady_commit, steady_autoScrollEffect, steady_visibilityEffect.
    revert Hs. unfold autoScrollCleanup. steady_fields s.
  - now apply steady_commit, steady_slideIntervalCallback.
  - now apply steady_commit, steady_loopIntervalCallback.
Qed.

Lemma steady_initialState : steady totalSlides (initialState totalSlides).
Proof.
  split; [split; reflexivity|]. unfold indicesInRange, initialState. cbn.
  repeat split; intros; rewrite ?andb_true_iff, ?Z.leb_le; lia.
Qed.

Lemma steady_run events s :
  forallb (admissible loop) events = true ->
  steady totalSlides s ->
  steady totalSlides (run autoScroll loop speed totalSlides events s).
Proof.
  revert s. induction events as [|e events IH]; intros s He Hs.
  - exact Hs.
  - cbn in He. apply andb_true_iff in He as [He Hes].
    apply IH; [exact Hes|]. now apply steady_step.
Qed.

End IndexRange.

(** ** Derived percentages *)

Section Derived.

Variables (autoScroll loop : bool) (speed totalSlides : Z).

Lemma progressSynced_commit s :
  progressSynced totalSlides (commit totalSlides s).
Proof.
  unfold progressSynced, commit, progressEffect. state_fields s.
  leaf_cases; auto; discriminate.
Qed.

Lemma progressSynced_step e s :
  progressSynced totalSlides s ->
  progressSynced totalSlides (step autoScroll loop speed totalSlides e s).
Proof.
  intros Hs. destruct e; unfold step; try apply progressSynced_commit.
  - destruct (isInitialized s); [exact Hs|].
    unfold progressSynced, progressEffect.
    generalize (autoScrollEffect autoScroll speed
                  (visibilityEffect autoScroll loop speed totalSlides s)).
    intros x. state_fields x. leaf_eval. auto.
  - destruct (autoScroll && isInitialized s); [|exact Hs].
    destruct (Bool.eqb isIntersecting (isVisible s)); [exact Hs|].
    apply progressSynced_commit.
Qed.

End Derived.

(** ** The loop interval *)

Section LoopTimer.

Variables (autoScroll loop : bool) (speed totalSlides : Z).
Hypothesis Htotal : 1 <= totalSlides.
Hypothesis Hspeed : 0 < speed.
Hypothesis Htick : (100 | speed).

Local Abbreviation loopTimed := (loopTimed speed totalSlides).
Local Abbreviation paced := (paced speed totalSlides).

Lemma loopTimed_nextSlide s :
  loopTimed s -> loopTimed (nextSlide autoScroll loop speed totalSlides s).
Proof.
  unfold loopTimed.
  destruct (nextSlide_loop_frame autoScroll loop speed totalSlides s) as [-> ->].
  auto.
Qed.

Lemma loopTimed_prevSlide s :
  loopTimed s -> loopTimed (prevSlide autoScroll loop speed totalSlides s).
Proof.
  unfold loopTimed.
  destruct (prevSlide_loop_frame autoScroll loop speed totalSlides s) as [-> ->].
  auto.
Qed.

Lemma goToSlide_loopProgress index s :
  loopProgress (goToSlide autoScroll loop speed totalSlides index s) = loopProgress s.
Proof.
  unfold goToSlide. state_fields s. leaf_cases; reflexivity.
Qed.

Lemma loopTimed_goToSlide index s :
  negb loop || (0 <=? index) = true ->
  loopTimed s ->
  loopTimed (goToSlide autoScroll loop speed totalSlides (Int index) s).
Proof.
  intros Hi [Hp Ht]. unfold loopTimed.
  rewrite goToSlide_loopProgress, goToSlide_loop_seed. split; [exact Hp|].
  destruct (Int index === currentSlideRef s)%js; [exact Ht|].
  destruct (autoScroll && _); [|exact I].
  pose proof (normalizedTarget_range loop totalSlides Htotal index Hi) as Hn.
  apply between_spec in Hn as (c & -> & Hc).
  exists (c * speed). split; [reflexivity|]. split; [nia|].
  now apply Z.divide_mul_r.
Qed.

Lemma loopTimed_loopIntervalCallback s :
  loopTimed s -> loopTimed (loopIntervalCallback speed totalSlides s).
Proof.
  unfold loopTimed, loopIntervalCallback. state_fields s.
  cbn [loopProgress loopProgressIntervalRef]. intros [Hp Ht].
  destruct lt as [a|]; [|now split].
  destruct Ht as (t & -> & Hr & Hd).
  assert (HD : (100 | speed * totalSlides)) by now apply Z.divide_mul_l.
  assert (Hle : t + 100 <= speed * totalSlides).
  { destruct Hd as [k ->], HD as [m Hm]. rewrite Hm in *. lia. }
  cbv zeta. cbn [Js.add Js.mul].
  rewrite pct_ge_100 by lia. leaf_eval. split.
  - apply pct_percent; lia.
  - destruct (Z.leb_spec (speed * totalSlides) (t + 100)).
    + exists 0. repeat split; try lia. apply Z.divide_0_r.
    + exists (t + 100). repeat split; try lia.
      apply Z.divide_add_r; [exact Hd | apply Z.divide_refl].
Qed.

Lemma loopTimed_slideIntervalCallback s :
  loopTimed s ->
  loopTimed (slideIntervalCallback autoScroll loop speed totalSlides s).
Proof.
  intros Hs. unfold slideIntervalCallback.
  destruct (slideProgressIntervalRef s) as [progressTime|]; [|exact Hs].
  cbv zeta. repeat break_if; try apply loopTimed_nextSlide;
    revert Hs; unfold loopTimed; state_fields s; leaf_eval; auto.
Qed.

Lemma loopTimed_autoScrollEffect s :
  loopTimed s -> loopTimed (autoScrollEffect autoScroll speed s).
Proof.
  unfold loopTimed, autoScrollEffect. state_fields s.
  cbn [loopProgress loopProgressIntervalRef]. intros [Hp Ht].
  leaf_cases; split; auto;
    exists 0; repeat split; try nia; apply Z.divide_0_r.
Qed.

Lemma loopTimed_commit s :
  loopTimed s -> loopTimed (commit totalSlides s).
Proof.
  unfold loopTimed.
  destruct (commit_frame totalSlides s) as (_ & _ & _ & -> & _ & _ & _ & -> & _).
  auto.
Qed.

Lemma paced_visibilityEffect s :
  paced s -> paced (visibilityEffect autoScroll loop speed totalSlides s).
Proof.
  intros [Hs Hl]. split; [now apply steady_visibilityEffect|].
  unfold visibilityEffect. destruct (negb (isVisible s)).
  - revert Hl. unfold loopTimed. state_fields s. leaf_eval.
    intros [Hp _]. now split.
  - now rewrite (goToSlide_current_steady autoScroll loop speed totalSlides s Hs).
Qed.

Lemma paced_step e s :
  admissible loop e = true ->
  paced s -> paced (step autoScroll loop speed totalSlides e s).
Proof.
  intros He [Hs Hl]. split; [now apply steady_step|].
  destruct e; unfold step.
  - destruct (isInitialized s); [exact Hl|].
    pose proof (paced_visibilityEffect s (conj Hs Hl)) as [_ Hv].
    apply loopTimed_autoScrollEffect in Hv. revert Hv.
    unfold loopTimed, progressEffect.
    generalize (autoScrollEffect autoScroll speed
                  (visibilityEffect autoScroll loop speed totalSlides s)).
    intros x. state_fields x. leaf_eval. auto.
  - now apply loopTimed_commit, loopTimed_nextSlide.
  - now apply loopTimed_commit, loopTimed_prevSlide.
  - now apply loopTimed_commit, loopTimed_goToSlide.
  - destruct (autoScroll && isInitialized s); [|exact Hl].
    destruct (Bool.eqb isIntersecting (isVisible s)); [exact Hl|].
    cbv zeta. apply loopTimed_commit, loopTimed_autoScrollEffect.
    apply paced_visibilityEffect. split.
    + revert Hs. unfold autoScrollCleanup, steady, settled, indicesInRange.
      state_fields s. leaf_eval. auto.
    + revert Hl. unfold loopTimed, autoScrollCleanup. state_fields s. leaf_eval.
      intros [Hp _]. now split.
  - now apply loopTimed_commit, loopTimed_slideIntervalCallback.
  - now apply loopTimed_commit, loopTimed_loopIntervalCallback.
Qed.

Lemma paced_run events s :
  forallb (admissible loop) events = true ->
  paced s -> paced (run autoScroll loop speed totalSlides events s).
Proof.
  revert s. induction events as [|e events IH]; intros s He Hs.
  - exact Hs.
  - cbn in He. apply andb_true_iff in He as [He Hes].
    apply IH; [exact Hes|]. now apply paced_step.
Qed.

Lemma paced_initialState : paced (initialState totalSlides).
Proof.
  split; [now apply steady_initialState|]. split; [reflexivity | exact I].
Qed.

End LoopTimer.

(** ** Live intervals and the configuration *)

Section TimerGuards.

Variables (autoScroll loop : bool) (speed totalSlides : Z).

Local Abbreviation loopTimerGuard := (loopTimerGuard autoScroll speed).

Lemma autoScroll_speed_guard (visible : bool) :
  autoScroll && visible && (Int speed >? Int 0)%js = true ->
  autoScroll = true /\ 0 < speed.
Proof.
  rewrite !andb_true_iff. cbn. rewrite Z.ltb_lt. tauto.
Qed.

Lemma loopTimerGuard_nextSlide s :
  loopTimerGuard s -> loopTimerGuard (nextSlide autoScroll loop speed totalSlides s).
Proof.
  unfold loopTimerGuard.
  destruct (nextSlide_loop_frame autoScroll loop speed totalSlides s) as [-> _].
  auto.
Qed.

Lemma loopTimerGuard_prevSlide s :
  loopTimerGuard s -> loopTimerGuard (prevSlide autoScroll loop speed totalSlides s).
Proof.
  unfold loopTimerGuard.
  destruct (prevSlide_loop_frame autoScroll loop speed totalSlides s) as [-> _].
  auto.
Qed.

Lemma loopTimerGuard_goToSlide index s :
  loopTimerGuard s ->
  loopTimerGuard (goToSlide autoScroll loop speed totalSlides index s).
Proof.
  unfold loopTimerGuard. rewrite goToSlide_loop_seed. intros H.
  destruct (index === currentSlideRef s)%js; [exact H|].
  destruct (autoScroll && _) eqn:E; [|congruence].
  intros _. apply (autoScroll_speed_guard true).
  now rewrite andb_true_r.
Qed.

Lemma loopTimerGuard_loopIntervalCallback s :
  loopTimerGuard s -> loopTimerGuard (loopIntervalCallback speed totalSlides s).
Proof.
  unfold loopTimerGuard, loopIntervalCallback. intros H.
  destruct (loopProgressIntervalRef s) eqn:E; [|now rewrite E].
  intros _. apply H. discriminate.
Qed.

Lemma loopTimerGuard_slideIntervalCallback s :
  loopTimerGuard s ->
  loopTimerGuard (slideIntervalCallback autoScroll loop speed totalSlides s).
Proof.
  intros Hs. unfold slideIntervalCallback.
  destruct (slideProgressIntervalRef s) as [progressTime|]; [|exact Hs].
  cbv zeta. repeat break_if; try apply loopTimerGuard_nextSlide;
    revert Hs; unfold loopTimerGuard; state_fields s; leaf_eval; auto.
Qed.

Lemma loopTimerGuard_visibilityEffect s :
  loopTimerGuard s ->
  loopTimerGuard (visibilityEffect autoScroll loop speed totalSlides s).
Proof.
  intros Hs. unfold visibilityEffect.
  destruct (negb (isVisible s)); [|now apply loopTimerGuard_goToSlide].
  unfold loopTimerGuard. state_fields s. leaf_eval. congruence.
Qed.

Lemma loopTimerGuard_autoScrollEffect s :
  loopTimerGuard s -> loopTimerGuard (autoScrollEffect autoScroll speed s).
Proof.
  unfold loopTimerGuard, autoScrollEffect. state_fields s.
  cbn [loopProgressIntervalRef]. intros H.
  leaf_cases; intros Hne; try congruence; eauto using autoScroll_speed_guard.
Qed.

Lemma loopTimerGuard_commit s :
  loopTimerGuard s -> loopTimerGuard (commit totalSlides s).
Proof.
  unfold loopTimerGuard.
  destruct (commit_frame totalSlides s) as (_ & _ & _ & _ & _ & _ & _ & -> & _).
  auto.
Qed.

Lemma loopTimerGuard_step e s :
  loopTimerGuard s -> loopTimerGuard (step autoScroll loop speed totalSlides e s).
Proof.
  intros Hs. destruct e; unfold step.
  - destruct (isInitialized s); [exact Hs|].
    apply loopTimerGuard_visibilityEffect, loopTimerGuard_autoScrollEffect in Hs.
    revert Hs. unfold loopTimerGuard, progressEffect.
    generalize (autoScrollEffect autoScroll speed
                  (visibilityEffect autoScroll loop speed totalSlides s)).
    intros x. state_fields x. leaf_eval. auto.
  - now apply loopTimerGuard_commit, loopTimerGuard_nextSlide.
  - now apply loopTimerGuard_commit, loopTimerGuard_prevSlide.
  - now apply loopTimerGuard_commit, loopTimerGuard_goToSlide.
  - destruct (autoScroll && isInitialized s); [|exact Hs].
    destruct (Bool.eqb isIntersecting (isVisible s)); [exact Hs|].
    cbv zeta.
    apply loopTimerGuard_commit, loopTimerGuard_autoScrollEffect,
      loopTimerGuard_visibilityEffect.
    unfold loopTimerGuard, autoScrollCleanup. state_fields s.
    leaf_eval. congruence.
  - now apply loopTimerGuard_commit, loopTimerGuard_slideIntervalCallback.
  - now apply loopTimerGuard_commit, loopTimerGuard_loopIntervalCallback.
Qed.

Lemma reachable_loopTimerGuard s :
  reachable autoScroll loop speed totalSlides s -> loopTimerGuard s.
Proof.
  induction 1 as [|e s _ IH].
  - intros H. now contradiction H.
  - now apply loopTimerGuard_step.
Qed.

End TimerGuards.

(** ** Without auto-scroll *)

Section Idle.

Variables (loop : bool) (speed totalSlides : Z).

Ltac idle_cases :=
  leaf_eval; cbn [negb orb andb];
  repeat (break_if; cbv beta iota); auto 10.

Lemma idle_nextSlide s :
  idle s -> idle (nextSlide false loop speed totalSlides s).
Proof.
  unfold idle, nextSlide. state_fields s.
  cbn [isVisible slideProgressIntervalRef loopProgressIntervalRef loopProgress
       slideTimeProgress].
  intros (-> & -> & -> & -> & H). idle_cases.
Qed.

Lemma idle_prevSlide s :
  idle s -> idle (prevSlide false loop speed totalSlides s).
Proof.
  unfold idle, prevSlide. state_fields s.
  cbn [isVisible slideProgressIntervalRef loopProgressIntervalRef loopProgress
       slideTimeProgress].
  intros (-> & -> & -> & -> & H). idle_cases.
Qed.

Lemma idle_goToSlide index s :
  idle s -> idle (goToSlide false loop speed totalSlides index s).
Proof.
  unfold idle, goToSlide. state_fields s.
  cbn [isVisible slideProgressIntervalRef loopProgressIntervalRef loopProgress
       slideTimeProgress].
  intros (-> & -> & -> & -> & H). idle_cases.
Qed.

Lemma idle_commit s : idle s -> idle (commit totalSlides s).
Proof.
  unfold idle.
  destruct (commit_frame totalSlides s)
    as (_ & _ & -> & -> & _ & -> & -> & -> & _). auto.
Qed.

Lemma idle_step e s :
  idle s -> idle (step false loop speed totalSlides e s).
Proof.
  intros Hs. destruct e; unfold step.
  - destruct (isInitialized s); [exact Hs|].
    revert Hs. unfold idle, progressEffect, autoScrollEffect, visibilityEffect.
    state_fields s.
    cbn [isVisible slideProgressIntervalRef loopProgressIntervalRef loopProgress
         slideTimeProgress].
    intros (-> & -> & -> & -> & H). idle_cases.
  - now apply idle_commit, idle_nextSlide.
  - now apply idle_commit, idle_prevSlide.
  - now apply idle_commit, idle_goToSlide.
  - exact Hs.
  - apply idle_commit. unfold slideIntervalCallback.
    destruct Hs as (Hv & Hst & Hrest). now rewrite Hst.
  - apply idle_commit. unfold loopIntervalCallback.
    destruct Hs as (Hv & Hst & Hlt & Hrest). now rewrite Hlt.
Qed.

Lemma reachable_idle s :
  reachable false loop speed totalSlides s -> idle s.
Proof.
  induction 1 as [|e s _ IH].
  - unfold idle. cbn. auto 10.
  - now apply idle_step.
Qed.

End Idle.

(** ** Visibility changes *)

Section Visibility.

Variables (loop : bool) (speed totalSlides : Z).

Lemma hide_spec s :
  isInitialized s = true ->
  isVisible s = true ->
  let s' := step true loop speed totalSlides (Intersect false) s in
  isVisible s' = false
  /\ slideProgressIntervalRef s' = None
  /\ loopProgressIntervalRef s' = None
  /\ slideTimeProgress s' = Fin 0
  /\ loopProgress s' = loopProgress s
  /\ indexState s' = indexState s
  /\ direction s' = direction s.
Proof.
  state_fields s. cbn [isInitialized isVisible]. intros -> ->.
  cbv beta iota zeta delta
    [step commit progressEffect autoScrollCleanup autoScrollEffect
     visibilityEffect Bool.eqb andb negb
     clearSlideInterval clearLoopInterval setIndexState
     setCurrentSlideRef setSlideTimeProgress setTotalProgress
     setLoopProgress setBulletProgress setDirection setIsVisible
     setSlideProgressIntervalRef setLoopProgressIntervalRef setIsAnimating
     setIsInitialized indexState currentSlideRef slideTimeProgress
     totalProgress loopProgress bulletProgress direction isVisible
     slideProgressIntervalRef loopProgressIntervalRef isAnimating
     isInitialized currentSlide prevIndex nextIndex].
  repeat split; reflexivity.
Qed.

Lemma show_spec s c :
  isInitialized s = true ->
  isVisible s = false ->
  currentSlideRef s = Int c ->
  let s' := step true loop speed totalSlides (Intersect true) s in
  let restarted := if 0 <? speed then Some (Int 0) else None in
  isVisible s' = true
  /\ slideProgressIntervalRef s' = restarted
  /\ loopProgressIntervalRef s' = restarted
  /\ loopProgress s' = loopProgress s
  /\ indexState s' = indexState s
  /\ direction s' = direction s.
Proof.
  intros Hini Hvis Href. cbv zeta. unfold step.
  rewrite Hini, Hvis. cbn [andb Bool.eqb]. cbv zeta.
  set (shown := autoScrollCleanup (setIsVisible true s)).
  assert (Hshown : visibilityEffect true loop speed totalSlides shown = shown).
  { assert (Hr : currentSlideRef shown = Int c) by exact Href.
    unfold visibilityEffect.
    change (isVisible shown) with true. cbn [negb].
    rewrite Hr. now apply goToSlide_current_noop. }
  rewrite Hshown.
  destruct (commit_frame totalSlides (autoScrollEffect true speed shown))
    as (-> & _ & _ & -> & -> & -> & -> & -> & _).
  subst shown. revert Hini Hvis. state_fields s.
  cbn [isInitialized isVisible]. intros -> ->.
  unfold autoScrollEffect, autoScrollCleanup. leaf_eval.
  cbn [andb Js.gt Js.lt Js.le negb orb].
  rewrite Z.leb_antisym.
  destruct (0 <? speed); cbn [negb]; repeat split; reflexivity.
Qed.

End Visibility.

(** ** Ticks of the slide interval *)

Section SlideTick.

Variables (autoScroll loop : bool) (speed totalSlides : Z).
Hypothesis Hspeed : 0 < speed.

Lemma slideIntervalCallback_running s t :
  slideProgressIntervalRef s = Some (Int t) ->
  t + 100 < speed ->
  slideIntervalCallback autoScroll loop speed totalSlides s
  = setSlideTimeProgress (rmul (div (Int (t + 100)) (Int speed)) (Int 100))
      (setSlideProgressIntervalRef (Some (Int (t + 100))) s).
Proof.
  intros Ht Hlt. unfold slideIntervalCallback. rewrite Ht. cbv zeta.
  cbn [Js.add]. rewrite pct_ge_100 by assumption.
  destruct (Z.leb_spec speed (t + 100)); [lia | reflexivity].
Qed.

Lemma slideIntervalCallback_elapsed s t :
  slideProgressIntervalRef s = Some (Int t) ->
  speed <= t + 100 ->
  slideIntervalCallback autoScroll loop speed totalSlides s
  = let s := setSlideTimeProgress (Fin 0) (clearSlideInterval s) in
    if loop || (currentSlideRef s <? Int totalSlides - Int 1)%js
    then nextSlide autoScroll loop speed totalSlides s
    else s.
Proof.
  intros Ht Hle. unfold slideIntervalCallback. rewrite Ht. cbv zeta.
  cbn [Js.add]. rewrite pct_ge_100 by assumption.
  destruct (Z.leb_spec speed (t + 100)); [|lia].
  state_fields s. leaf_eval. reflexivity.
Qed.

End SlideTick.

(** ** Where the navigation calls lead *)

Section Moves.

Variables (autoScroll loop : bool) (speed totalSlides : Z).

Local Abbreviation step := (step autoScroll loop speed totalSlides).

Lemma nextCandidate_value c :
  0 <= c < totalSlides ->
  nextCandidate loop totalSlides (Int c)
  = Int (if c =? totalSlides - 1 then (if loop then 0 else c) else c + 1).
Proof.
  intros Hc. unfold nextCandidate. destruct loop; cbn.
  - destruct (Z.eqb_spec totalSlides 0); [lia|]. f_equal.
    destruct (Z.eqb_spec c (totalSlides - 1)) as [->|Hne].
    + replace (totalSlides - 1 + 1) with totalSlides by lia.
      apply Z.rem_same. lia.
    + apply Z.rem_small. lia.
  - f_equal. destruct (Z.eqb_spec c (totalSlides - 1)); lia.
Qed.

Lemma prevCandidate_value c :
  0 <= c < totalSlides ->
  prevCandidate loop totalSlides (Int c)
  = Int (if c =? 0 then (if loop then totalSlides - 1 else 0) else c - 1).
Proof.
  intros Hc. unfold prevCandidate. destruct loop; cbn.
  - destruct (Z.eqb_spec totalSlides 0); [lia|]. f_equal.
    destruct (Z.eqb_spec c 0) as [->|Hne].
    + replace (0 - 1 + totalSlides) with (totalSlides - 1) by lia.
      apply Z.rem_small. lia.
    + replace (c - 1 + totalSlides) with (c - 1 + 1 * totalSlides) by lia.
      rewrite Z.rem_add by nia. apply Z.rem_small. lia.
  - f_equal. destruct (Z.eqb_spec c 0); lia.
Qed.

Lemma step_NextSlide_currentSlide s c :
  settled s ->
  isInitialized s = true ->
  currentSlide (indexState s) = Int c ->
  0 <= c < totalSlides ->
  currentSlide (indexState (step NextSlide s))
  = Int (if c =? totalSlides - 1 then (if loop then 0 else c) else c + 1).
Proof.
  intros Hs Hini Hc Hr. unfold step.
  destruct (commit_frame totalSlides (nextSlide autoScroll loop speed totalSlides s))
    as (-> & _).
  pose proof (nextSlide_indexState autoScroll loop speed totalSlides s Hs) as H.
  rewrite Hini, Hc, nextCandidate_value in H by assumption.
  cbn [andb Js.seq] in H.
  destruct (Z.eqb_spec c (totalSlides - 1)) as [->|Hne].
  - destruct loop; cbn [orb negb] in H.
    + apply H.
    + rewrite Z.eqb_refl in H. cbn in H. now rewrite H.
  - replace (c + 1 =? c) with false in H by (symmetry; apply Z.eqb_neq; lia).
    rewrite orb_true_r in H. apply H.
Qed.

Lemma step_PrevSlide_currentSlide s c :
  settled s ->
  currentSlide (indexState s) = Int c ->
  0 <= c < totalSlides ->
  currentSlide (indexState (step PrevSlide s))
  = Int (if c =? 0 then (if loop then totalSlides - 1 else 0) else c - 1).
Proof.
  intros Hs Hc Hr. unfold step.
  destruct (commit_frame totalSlides (prevSlide autoScroll loop speed totalSlides s))
    as (-> & _).
  rewrite prevSlide_currentSlide, Hc by assumption.
  now apply prevCandidate_value.
Qed.

Lemma step_isInitialized e s :
  isInitialized s = true -> isInitialized (step e s) = true.
Proof.
  intros Hini.
  assert (Hc : forall x, isInitialized x = true ->
                         isInitialized (commit totalSlides x) = true).
  { intros x Hx.
    destruct (commit_frame totalSlides x)
      as (_ & _ & _ & _ & _ & _ & _ & _ & ->). exact Hx. }
  assert (Hn : forall x, isInitialized x = true ->
             isInitialized (nextSlide autoScroll loop speed totalSlides x) = true).
  { intros x. unfold nextSlide. state_fields x. cbn [isInitialized].
    intros ->. leaf_cases; reflexivity. }
  destruct e; unfold step; try rewrite Hini; try exact Hini.
  - apply Hc, Hn, Hini.
  - apply Hc. revert Hini. unfold prevSlide. state_fields s.
    cbn [isInitialized]. intros ->. leaf_cases; reflexivity.
  - apply Hc. revert Hini. unfold goToSlide. state_fields s.
    cbn [isInitialized]. intros ->. leaf_cases; reflexivity.
  - rewrite andb_true_r. destruct autoScroll; [|exact Hini].
    destruct (Bool.eqb isIntersecting (isVisible s)); [exact Hini|].
    cbv zeta. apply Hc.
    set (shown := autoScrollCleanup (setIsVisible isIntersecting s)).
    assert (Hsh : isInitialized shown = true) by exact Hini.
    clearbody shown.
    assert (Hv : isInitialized (visibilityEffect true loop speed totalSlides shown) = true).
    { unfold visibilityEffect. destruct (negb (isVisible shown)).
      - exact Hsh.
      - revert Hsh. unfold goToSlide. state_fields shown.
        cbn [isInitialized]. intros ->. leaf_cases; reflexivity. }
    revert Hv. unfold autoScrollEffect.
    generalize (visibilityEffect true loop speed totalSlides shown).
    intros x. state_fields x.
    cbn [isInitialized]. intros ->. leaf_cases; reflexivity.
  - apply Hc. unfold slideIntervalCallback.
    destruct (slideProgressIntervalRef s); [|exact Hini].
    cbv zeta. repeat break_if; try apply Hn;
      revert Hini; state_fields s; leaf_eval; auto.
  - apply Hc. revert Hini. unfold loopIntervalCallback. state_fields s.
    cbn [isInitialized]. intros ->. leaf_cases; reflexivity.
Qed.

Lemma commit_idempotent s :
  commit totalSlides (commit totalSlides s) = commit totalSlides s.
Proof.
  unfold commit, progressEffect. state_fields s. leaf_eval.
  destruct ini; leaf_eval; reflexivity.
Qed.

End Moves.

(** ** Further properties of the hook *)

(** X1.  With at least one slide, as long as [goToSlide] is given no
    negative index while looping, every run of events keeps [currentSlide]
    and [prevIndex] inside [[0, totalSlides-1]], and [nextIndex] too when
    there are at least two slides. *)
Theorem indices_stay_in_range
    (autoScroll loop : bool) (speed totalSlides : Z) (events : list Event) :
  1 <= totalSlides ->
  forallb (admissible loop) events = true ->
  let s := run autoScroll loop speed totalSlides events (initialState totalSlides) in
  between 0 (totalSlides - 1) (currentSlide (indexState s)) = true
  /\ between 0 (totalSlides - 1) (prevIndex (indexState s)) = true
  /\ (2 <= totalSlides ->
      between 0 (totalSlides - 1) (nextIndex (indexState s)) = true).
Proof.
  intros Ht He.
  exact (proj2 (steady_run autoScroll loop speed totalSlides Ht events _ He
                  (steady_initialState totalSlides Ht))).
Qed.

Lemma indices_stay_in_range_witness :
  let s := run true true 1000 5
             [Mount; Intersect true; GoToSlide 7; NextSlide; NextSlide;
              NextSlide; PrevSlide; SlideTick; GoToSlide 0; PrevSlide]
             (initialState 5) in
  between 0 (5 - 1) (currentSlide (indexState s)) = true
  /\ between 0 (5 - 1) (prevIndex (indexState s)) = true
  /\ (2 <= 5 -> between 0 (5 - 1) (nextIndex (indexState s)) = true).
Proof.
  apply (indices_stay_in_range true true 1000 5); [lia | reflexivity].
Defined.

(** X2.  In every reachable state [currentSlideRef.current] equals the
    rendered [currentSlide], and the [isAnimating] lock is released: once
    initialized, a [nextSlide()] is never dropped by the lock. *)
Theorem ref_mirrors_currentSlide_and_lock_is_free
    (autoScroll loop : bool) (speed totalSlides : Z) (s : State) :
  reachable autoScroll loop speed totalSlides s ->
  currentSlideRef s = currentSlide (indexState s) /\ isAnimating s = false.
Proof.
  apply reachable_settled.
Qed.

Lemma ref_mirrors_currentSlide_and_lock_is_free_witness :
  let s := run true false 700 4
             [GoToSlide 9; Mount; Intersect true; SlideTick; PrevSlide; NextSlide]
             (initialState 4) in
  currentSlideRef s = currentSlide (indexState s) /\ isAnimating s = false.
Proof.
  intros s.
  apply (ref_mirrors_currentSlide_and_lock_is_free true false 700 4 s).
  apply reachable_run, reachable_initial.
Defined.

(** X3.  From slide [c] of [totalSlides], [prevSlide()] leads to [c - 1],
    and from slide 0 to the last slide when looping and to 0 otherwise;
    [nextSlide()] on an initialized hook leads to [c + 1], and from the
    last slide to 0 when looping and nowhere otherwise. *)
Theorem nextSlide_prevSlide_targets
    (autoScroll loop : bool) (speed totalSlides : Z) (s : State) (c : Z) :
  reachable autoScroll loop speed totalSlides s ->
  currentSlide (indexState s) = Int c ->
  0 <= c < totalSlides ->
  currentSlide (indexState (step autoScroll loop speed totalSlides PrevSlide s))
  = Int (if c =? 0 then (if loop then totalSlides - 1 else 0) else c - 1)
  /\ (isInitialized s = true ->
      currentSlide (indexState (step autoScroll loop speed totalSlides NextSlide s))
      = Int (if c =? totalSlides - 1 then (if loop then 0 else c) else c + 1)).
Proof.
  intros Hs Hc Hr. apply reachable_settled in Hs. split.
  - now apply step_PrevSlide_currentSlide.
  - intros Hini. now apply step_NextSlide_currentSlide.
Qed.

Lemma nextSlide_prevSlide_targets_witness :
  let s := run false true 3000 5 [Mount; GoToSlide 4] (initialState 5) in
  currentSlide (indexState (step false true 3000 5 PrevSlide s)) = Int 3
  /\ (isInitialized s = true ->
      currentSlide (indexState (step false true 3000 5 NextSlide s)) = Int 0).
Proof.
  intros s.
  apply (nextSlide_prevSlide_targets false true 3000 5 s 4).
  - apply reachable_run, reachable_initial.
  - reflexivity.
  - lia.
Defined.

(** X4.  On an initialized hook, [prevSlide()] undoes a [nextSlide()]
    unless the latter stopped at the last slide without looping, and
    [nextSlide()] undoes a [prevSlide()] unless the latter was clamped at
    slide 0 without looping. *)
Theorem nextSlide_prevSlide_round_trip
    (autoScroll loop : bool) (speed totalSlides : Z) (s : State) (c : Z) :
  reachable autoScroll loop speed totalSlides s ->
  isInitialized s = true ->
  currentSlide (indexState s) = Int c ->
  0 <= c < totalSlides ->
  (loop = true \/ c < totalSlides - 1 ->
   currentSlide
     (indexState (step autoScroll loop speed totalSlides PrevSlide
                    (step autoScroll loop speed totalSlides NextSlide s)))
   = Int c)
  /\ (loop = true \/ 0 < c ->
      currentSlide
        (indexState (step autoScroll loop speed totalSlides NextSlide
                       (step autoScroll loop speed totalSlides PrevSlide s)))
      = Int c).
Proof.
  intros Hs Hini Hc Hr. apply reachable_settled in Hs. split; intros Hmove.
  - pose proof (step_NextSlide_currentSlide autoScroll loop speed totalSlides
                  s c Hs Hini Hc Hr) as Hn.
    rewrite (step_PrevSlide_currentSlide autoScroll loop speed totalSlides _ _
               (settled_step autoScroll loop speed totalSlides NextSlide s Hs) Hn).
    + f_equal.
      destruct (Z.eqb_spec c (totalSlides - 1)), loop;
        repeat match goal with
               | |- context [?a =? ?b] => destruct (Z.eqb_spec a b)
               end; try lia; destruct Hmove; (discriminate || lia).
    + destruct (Z.eqb_spec c (totalSlides - 1)), loop; lia.
  - pose proof (step_PrevSlide_currentSlide autoScroll loop speed totalSlides
                  s c Hs Hc Hr) as Hp.
    rewrite (step_NextSlide_currentSlide autoScroll loop speed totalSlides _ _
               (settled_step autoScroll loop speed totalSlides PrevSlide s Hs)
               (step_isInitialized autoScroll loop speed totalSlides PrevSlide s Hini)
               Hp).
    + f_equal.
      destruct (Z.eqb_spec c 0), loop;
        repeat match goal with
               | |- context [?a =? ?b] => destruct (Z.eqb_spec a b)
               end; try lia; destruct Hmove; (discriminate || lia).
    + destruct (Z.eqb_spec c 0), loop; lia.
Qed.

Lemma nextSlide_prevSlide_round_trip_witness :
  let s := run true true 1000 3 [Mount; Intersect true; GoToSlide 2] (initialState 3) in
  (true = true \/ 2 < 3 - 1 ->
   currentSlide
     (indexState (step true true 1000 3 PrevSlide (step true true 1000 3 NextSlide s)))
   = Int 2)
  /\ (true = true \/ 0 < 2 ->
      currentSlide
        (indexState (step true true 1000 3 NextSlide (step true true 1000 3 PrevSlide s)))
      = Int 2).
Proof.
  intros s.
  apply (nextSlide_prevSlide_round_trip true true 1000 3 s 2).
  - apply reachable_run, reachable_initial.
  - reflexivity.
  - reflexivity.
  - lia.
Defined.

Lemma normalizedTarget_in_range (loop : bool) (totalSlides index : Z) :
  0 <= index < totalSlides ->
  normalizedTarget loop totalSlides (Int index) = Int index.
Proof.
  intros Hi. unfold normalizedTarget. destruct loop; cbn.
  - destruct (Z.eqb_spec totalSlides 0); [lia|]. f_equal.
    apply Z.rem_small. lia.
  - f_equal. lia.
Qed.

(** X5.  [goToSlide(index)] with an index of [[0, totalSlides-1]] is
    idempotent: the second call finds the index current and returns at
    once, so neither the index state nor the two intervals are touched
    again. *)
Theorem goToSlide_twice_is_once
    (autoScroll loop : bool) (speed totalSlides : Z) (s : State) (index : Z) :
  reachable autoScroll loop speed totalSlides s ->
  0 <= index < totalSlides ->
  step autoScroll loop speed totalSlides (GoToSlide index)
    (step autoScroll loop speed totalSlides (GoToSlide index) s)
  = step autoScroll loop speed totalSlides (GoToSlide index) s.
Proof.
  intros Hs Hi. apply reachable_settled in Hs. unfold step.
  pose proof (settled_goToSlide autoScroll loop speed totalSlides (Int index) s Hs)
    as [Hr1 _].
  pose proof (goToSlide_indexState autoScroll loop speed totalSlides (Int index) s Hs)
    as H.
  set (s1 := goToSlide autoScroll loop speed totalSlides (Int index) s) in *.
  assert (Href : currentSlideRef s1 = Int index).
  { destruct (Int index === currentSlide (indexState s))%js eqn:E.
    - rewrite H. destruct Hs as [-> _].
      destruct (currentSlide (indexState s)); cbn in E; [|discriminate].
      apply Z.eqb_eq in E. now rewrite E.
    - destruct H as [Hc _]. rewrite Hr1, Hc.
      now apply normalizedTarget_in_range. }
  pose proof (commit_frame totalSlides s1) as (_ & Hcr & _).
  rewrite goToSlide_current_noop by (rewrite Hcr; exact Href).
  apply commit_idempotent.
Qed.

Lemma goToSlide_twice_is_once_witness :
  let s := run true true 1000 4 [Mount; Intersect true; NextSlide] (initialState 4) in
  step true true 1000 4 (GoToSlide 3) (step true true 1000 4 (GoToSlide 3) s)
  = step true true 1000 4 (GoToSlide 3) s.
Proof.
  intros s.
  apply (goToSlide_twice_is_once true true 1000 4 s 3).
  - apply reachable_run, reachable_initial.
  - lia.
Defined.

Lemma reachable_progressSynced
    (autoScroll loop : bool) (speed totalSlides : Z) (s : State) :
  reachable autoScroll loop speed totalSlides s -> progressSynced totalSlides s.
Proof.
  induction 1 as [|e s _ IH].
  - intros H. discriminate H.
  - now apply progressSynced_step.
Qed.

(** X6.  Once the hook is mounted, in every reachable state
    [totalProgress] is [(currentSlide + 1) / totalSlides * 100] and
    [bulletProgress] is [calculateBulletProgress(totalSlides, currentSlide)]
    for the slide that is current: no navigation, tick or visibility change
    leaves them behind. *)
Theorem derived_progress_follows_currentSlide
    (autoScroll loop : bool) (speed totalSlides : Z) (s : State) :
  reachable autoScroll loop speed totalSlides s ->
  isInitialized s = true ->
  totalProgress s
    = rmul (div (currentSlide (indexState s) + Int 1)%js (Int totalSlides)) (Int 100)
  /\ bulletProgress s
     = calculateBulletProgress (Int totalSlides) (currentSlide (indexState s)).
Proof.
  intros Hs. now apply reachable_progressSynced in Hs.
Qed.

Lemma derived_progress_follows_currentSlide_witness :
  let s := run true true 1000 4
             [Mount; Intersect true; NextSlide; SlideTick; GoToSlide 3; PrevSlide]
             (initialState 4) in
  totalProgress s
    = rmul (div (currentSlide (indexState s) + Int 1)%js (Int 4)) (Int 100)
  /\ bulletProgress s
     = calculateBulletProgress (Int 4) (currentSlide (indexState s)).
Proof.
  intros s.
  apply (derived_progress_follows_currentSlide true true 1000 4 s).
  - apply reachable_run, reachable_initial.
  - reflexivity.
Defined.

(** X7.  With at least one slide and no negative [goToSlide] index while
    looping, a mounted hook always exposes a [totalProgress] between 0 and
    100, and with at least two slides a [bulletProgress] between 0 and
    100. *)
Theorem derived_progress_is_percentage
    (autoScroll loop : bool) (speed totalSlides : Z) (events : list Event) :
  1 <= totalSlides ->
  forallb (admissible loop) events = true ->
  let s := run autoScroll loop speed totalSlides events (initialState totalSlides) in
  isInitialized s = true ->
  percent (totalProgress s) = true
  /\ (2 <= totalSlides -> percent (bulletProgress s) = true).
Proof.
  intros Ht He s Hini.
  assert (Hsync : progressSynced totalSlides s)
    by (apply (reachable_progressSynced autoScroll loop speed), reachable_run,
          reachable_initial).
  destruct (Hsync Hini) as [-> ->].
  destruct (steady_run autoScroll loop speed totalSlides Ht events _ He
              (steady_initialState totalSlides Ht)) as [_ (Hc & _)].
  fold s in Hc. apply between_spec in Hc as (c & -> & Hc). split.
  - cbn [Js.add]. apply pct_percent; lia.
  - intros Ht2. rewrite calculateBulletProgress_value by assumption.
    apply pct_percent; lia.
Qed.

Lemma derived_progress_is_percentage_witness :
  let s := run false false 3000 3
             [Mount; GoToSlide (-4); NextSlide; GoToSlide 12; PrevSlide]
             (initialState 3) in
  percent (totalProgress s) = true
  /\ (2 <= 3 -> percent (bulletProgress s) = true).
Proof.
  apply (derived_progress_is_percentage false false 3000 3
           [Mount; GoToSlide (-4); NextSlide; GoToSlide 12; PrevSlide]);
    [lia | reflexivity | reflexivity].
Defined.

(** X8.  With at least two slides, [calculateBulletProgress] returns a
    value between 0 and 100 for every integer index: indices below 0 count
    as slide 0 and give 0, indices from the last slide on count as the last
    slide and give 100. *)
Theorem calculateBulletProgress_clamps (totalSlides activeIndex : Z) :
  2 <= totalSlides ->
  percent (calculateBulletProgress (Int totalSlides) (Int activeIndex)) = true
  /\ (activeIndex <= 0 ->
      calculateBulletProgress (Int totalSlides) (Int activeIndex) = Fin 0)
  /\ (totalSlides - 1 <= activeIndex ->
      calculateBulletProgress (Int totalSlides) (Int activeIndex) = Fin 100).
Proof.
  intros Ht. rewrite calculateBulletProgress_value by assumption.
  repeat split.
  - apply pct_percent; lia.
  - intros Ha. replace (Z.min (Z.max activeIndex 0) (totalSlides - 1)) with 0 by lia.
    apply pct_zero. lia.
  - intros Ha.
    replace (Z.min (Z.max activeIndex 0) (totalSlides - 1))
      with (totalSlides - 1) by lia.
    apply pct_full. lia.
Qed.

Lemma calculateBulletProgress_clamps_witness :
  percent (calculateBulletProgress (Int 4) (Int 9)) = true
  /\ (9 <= 0 -> calculateBulletProgress (Int 4) (Int 9) = Fin 0)
  /\ (4 - 1 <= 9 -> calculateBulletProgress (Int 4) (Int 9) = Fin 100).
Proof.
  apply (calculateBulletProgress_clamps 4 9). lia.
Defined.

(** X9.  When [speed] is a positive multiple of the 100 ms tick (with at
    least one slide and no negative [goToSlide] index while looping),
    [loopProgress] stays between 0 and 100 in every run: the loop interval
    reaches the cycle length exactly and is reset there. *)
Theorem loopProgress_is_percentage_when_speed_is_tick_multiple
    (autoScroll loop : bool) (speed totalSlides : Z) (events : list Event) :
  1 <= totalSlides ->
  0 < speed ->
  (100 | speed) ->
  forallb (admissible loop) events = true ->
  percent
    (loopProgress
       (run autoScroll loop speed totalSlides events (initialState totalSlides)))
  = true.
Proof.
  intros Ht Hs Hd He.
  exact (proj1 (proj2 (paced_run autoScroll loop speed totalSlides Ht Hs Hd
                         events _ He
                         (paced_initialState speed totalSlides Ht)))).
Qed.

Lemma loopProgress_is_percentage_when_speed_is_tick_multiple_witness :
  percent
    (loopProgress
       (run true true 300 2
          [Mount; Intersect true; LoopTick; LoopTick; LoopTick; LoopTick;
           LoopTick; LoopTick; GoToSlide 1; LoopTick; LoopTick; LoopTick]
          (initialState 2)))
  = true.
Proof.
  apply (loopProgress_is_percentage_when_speed_is_tick_multiple true true 300 2).
  - lia.
  - lia.
  - exists 3. reflexivity.
  - reflexivity.
Defined.

(** X10.  In every reachable state a live slide interval or a live loop
    interval implies [autoScroll] and [speed > 0]: no call sequence starts
    a timer on a hook configured without auto-scroll or with a speed of 0
    or less. *)
Theorem live_interval_needs_autoScroll_and_speed
    (autoScroll loop : bool) (speed totalSlides : Z) (s : State) :
  reachable autoScroll loop speed totalSlides s ->
  slideProgressIntervalRef s <> None \/ loopProgressIntervalRef s <> None ->
  autoScroll = true /\ 0 < speed.
Proof.
  intros Hs [H|H].
  - exact (reachable_slideTimerGuard autoScroll loop speed totalSlides s Hs H).
  - exact (reachable_loopTimerGuard autoScroll loop speed totalSlides s Hs H).
Qed.

Lemma live_interval_needs_autoScroll_and_speed_witness :
  true = true /\ 0 < 1000.
Proof.
  apply (live_interval_needs_autoScroll_and_speed true true 1000 3
           (run true true 1000 3 [Mount; Intersect true; SlideTick] (initialState 3))).
  - apply reachable_run, reachable_initial.
  - left. discriminate.
Defined.

(** X11.  Without [autoScroll] the hook never becomes visible (no observer
    is created), never has a live interval, keeps [loopProgress] at 0, and
    [slideTimeProgress] is 0 or, after [nextSlide()] hit the last slide
    without looping, 100. *)
Theorem without_autoScroll_hook_is_idle
    (loop : bool) (speed totalSlides : Z) (s : State) :
  reachable false loop speed totalSlides s ->
  isVisible s = false
  /\ slideProgressIntervalRef s = None
  /\ loopProgressIntervalRef s = None
  /\ loopProgress s = Fin 0
  /\ (slideTimeProgress s = Fin 0 \/ slideTimeProgress s = Fin 100).
Proof.
  apply reachable_idle.
Qed.

Lemma without_autoScroll_hook_is_idle_witness :
  let s := run false false 1000 3
             [Mount; Intersect true; GoToSlide 2; SlideTick; LoopTick; NextSlide]
             (initialState 3) in
  isVisible s = false
  /\ slideProgressIntervalRef s = None
  /\ loopProgressIntervalRef s = None
  /\ loopProgress s = Fin 0
  /\ (slideTimeProgress s = Fin 0 \/ slideTimeProgress s = Fin 100).
Proof.
  intros s. apply (without_autoScroll_hook_is_idle false 1000 3 s).
  apply reachable_run, reachable_initial.
Defined.

(** X12.  When a mounted, visible auto-scrolling hook leaves the viewport,
    both intervals are cleared and [slideTimeProgress] is reset to 0, while
    [loopProgress], the index state and the direction are kept. *)
Theorem leaving_viewport_stops_both_intervals
    (loop : bool) (speed totalSlides : Z) (s : State) :
  isInitialized s = true ->
  isVisible s = true ->
  let s' := step true loop speed totalSlides (Intersect false) s in
  isVisible s' = false
  /\ slideProgressIntervalRef s' = None
  /\ loopProgressIntervalRef s' = None
  /\ slideTimeProgress s' = Fin 0
  /\ loopProgress s' = loopProgress s
  /\ indexState s' = indexState s
  /\ direction s' = direction s.
Proof.
  apply hide_spec.
Qed.

Lemma leaving_viewport_stops_both_intervals_witness :
  let s := run true true 1000 3
             [Mount; Intersect true; SlideTick; LoopTick; SlideTick; LoopTick]
             (initialState 3) in
  let s' := step true true 1000 3 (Intersect false) s in
  slideTimeProgress s = Fin 20
  /\ isVisible s' = false
  /\ slideProgressIntervalRef s' = None
  /\ loopProgressIntervalRef s' = None
  /\ slideTimeProgress s' = Fin 0
  /\ loopProgress s' = loopProgress s
  /\ indexState s' = indexState s
  /\ direction s' = direction s.
Proof.
  intros s. split; [reflexivity|].
  apply (leaving_viewport_stops_both_intervals true 1000 3 s); reflexivity.
Defined.

(** X13.  When a mounted, hidden auto-scrolling hook whose current slide is
    an integer enters the viewport, the index state, the direction and
    [loopProgress] are kept, and with [speed > 0] both intervals are
    registered anew with their accumulators at 0 (with [speed <= 0] both
    stay cleared). *)
Theorem entering_viewport_restarts_both_intervals_from_zero
    (loop : bool) (speed totalSlides : Z) (s : State) (c : Z) :
  isInitialized s = true ->
  isVisible s = false ->
  currentSlideRef s = Int c ->
  let s' := step true loop speed totalSlides (Intersect true) s in
  let restarted := if 0 <? speed then Some (Int 0) else None in
  isVisible s' = true
  /\ slideProgressIntervalRef s' = restarted
  /\ loopProgressIntervalRef s' = restarted
  /\ loopProgress s' = loopProgress s
  /\ indexState s' = indexState s
  /\ direction s' = direction s.
Proof.
  apply show_spec.
Qed.

Lemma entering_viewport_restarts_both_intervals_from_zero_witness :
  let s := run true false 1000 4
             [Mount; Intersect true; GoToSlide 3; LoopTick; Intersect false]
             (initialState 4) in
  let s' := step true false 1000 4 (Intersect true) s in
  isVisible s' = true
  /\ slideProgressIntervalRef s' = Some (Int 0)
  /\ loopProgressIntervalRef s' = Some (Int 0)
  /\ loopProgress s' = loopProgress s
  /\ indexState s' = indexState s
  /\ direction s' = direction s.
Proof.
  intros s.
  apply (entering_viewport_restarts_both_intervals_from_zero false 1000 4 s 3);
    reflexivity.
Defined.

(** ** What a navigation call leaves besides the indices *)

Section NavigationEffects.

Variables (autoScroll loop : bool) (speed totalSlides : Z).

Local Abbreviation restartedSlideInterval :=
  (restartedSlideInterval autoScroll speed).

Lemma prevSlide_effects s :
  direction (prevSlide autoScroll loop speed totalSlides s) = prev
  /\ slideTimeProgress (prevSlide autoScroll loop speed totalSlides s)
     = slideTimeProgress s
  /\ slideProgressIntervalRef (prevSlide autoScroll loop speed totalSlides s)
     = restartedSlideInterval s.
Proof.
  unfold prevSlide, restartedSlideInterval. state_fields s. leaf_eval.
  cbn [Js.le]. rewrite Z.leb_antisym.
  destruct autoScroll, (0 <? speed); cbn; repeat split; reflexivity.
Qed.

(** [nextSlide] when it goes through [updateIndexes]. *)
Lemma nextSlide_effects s c :
  isInitialized s = true ->
  isAnimating s = false ->
  currentSlideRef s = Int c ->
  loop = true \/ c < totalSlides - 1 ->
  let s' := nextSlide autoScroll loop speed totalSlides s in
  indexState s'
  = {| currentSlide := nextCandidate loop totalSlides (Int c);
       prevIndex := Int c;
       nextIndex := recomputedNextIndex loop totalSlides
                      (nextCandidate loop totalSlides (Int c)) |}
  /\ direction s' = next
  /\ slideTimeProgress s' = slideTimeProgress s
  /\ slideProgressIntervalRef s' = restartedSlideInterval s
  /\ isInitialized s' = true.
Proof.
  unfold nextSlide, nextCandidate, restartedSlideInterval. state_fields s.
  cbn [isInitialized isAnimating currentSlideRef]. intros -> -> -> Hmove.
  assert (E : negb loop
              && (Js.min (Int c + Int 1) (Int totalSlides - Int 1) === Int c)%js
              = false).
  { destruct Hmove as [->|Hlt]; [reflexivity|].
    apply andb_false_intro2. cbn. apply Z.eqb_neq. lia. }
  leaf_eval. cbn [orb negb Js.le]. rewrite Z.leb_antisym.
  destruct loop; cbn [negb andb] in *.
  - destruct autoScroll, (0 <? speed); cbn; repeat split; reflexivity.
  - rewrite E.
    destruct autoScroll, (0 <? speed); cbn; repeat split; reflexivity.
Qed.

Lemma rem_zero a : (a mod Int 0)%js = NaN.
Proof.
  destruct a; reflexivity.
Qed.

End NavigationEffects.

(** X14.  A tick of the slide interval that does not complete the slide
    ([progressTime + 100 < speed]) only adds 100 to the accumulator and
    exposes [slideTimeProgress = (progressTime + 100) / speed * 100], a
    value between 0 and 100; the indices and the loop interval are untouched. *)
Theorem slide_tick_accumulates
    (autoScroll loop : bool) (speed totalSlides : Z) (s : State) (t : Z) :
  slideProgressIntervalRef s = Some (Int t) ->
  0 <= t ->
  t + 100 < speed ->
  let s' := step autoScroll loop speed totalSlides SlideTick s in
  slideProgressIntervalRef s' = Some (Int (t + 100))
  /\ slideTimeProgress s' = rmul (div (Int (t + 100)) (Int speed)) (Int 100)
  /\ percent (slideTimeProgress s') = true
  /\ indexState s' = indexState s
  /\ loopProgressIntervalRef s' = loopProgressIntervalRef s.
Proof.
  intros Ht H0 Hlt. cbv zeta. unfold step.
  destruct (commit_frame totalSlides
              (slideIntervalCallback autoScroll loop speed totalSlides s))
    as (-> & _ & -> & _ & _ & _ & -> & -> & _).
  rewrite (slideIntervalCallback_running autoScroll loop speed totalSlides
             ltac:(lia) s t Ht Hlt).
  state_fields s. leaf_eval. repeat split. apply pct_percent; lia.
Qed.

Lemma slide_tick_accumulates_witness :
  let s := run true true 1000 3 [Mount; Intersect true; SlideTick; SlideTick]
             (initialState 3) in
  let s' := step true true 1000 3 SlideTick s in
  slideProgressIntervalRef s' = Some (Int (200 + 100))
  /\ slideTimeProgress s' = rmul (div (Int (200 + 100)) (Int 1000)) (Int 100)
  /\ percent (slideTimeProgress s') = true
  /\ indexState s' = indexState s
  /\ loopProgressIntervalRef s' = loopProgressIntervalRef s.
Proof.
  intros s.
  apply (slide_tick_accumulates true true 1000 3 s 200); [reflexivity | lia | lia].
Defined.

(** X15.  On a mounted hook, the tick that completes the slide
    ([progressTime + 100 >= speed]) advances automatically when looping or
    before the last slide: [currentSlide] becomes the next slide (0 after
    the last one), [prevIndex] the slide left, the direction ['next'],
    [slideTimeProgress] 0, and a fresh slide interval starts at 0. *)
Theorem slide_tick_advances_when_slide_time_elapsed
    (autoScroll loop : bool) (speed totalSlides : Z) (s : State) (t c : Z) :
  reachable autoScroll loop speed totalSlides s ->
  isInitialized s = true ->
  slideProgressIntervalRef s = Some (Int t) ->
  speed <= t + 100 ->
  currentSlide (indexState s) = Int c ->
  0 <= c < totalSlides ->
  loop = true \/ c < totalSlides - 1 ->
  let s' := step autoScroll loop speed totalSlides SlideTick s in
  currentSlide (indexState s') = Int (if c =? totalSlides - 1 then 0 else c + 1)
  /\ prevIndex (indexState s') = Int c
  /\ direction s' = next
  /\ slideTimeProgress s' = Fin 0
  /\ slideProgressIntervalRef s' = Some (Int 0).
Proof.
  intros Hs Hini Ht Hle Hc Hr Hmove.
  assert (Hcfg : autoScroll = true /\ 0 < speed).
  { apply (reachable_slideTimerGuard autoScroll loop speed totalSlides s Hs).
    rewrite Ht. discriminate. }
  destruct Hcfg as [Hauto Hspeed].
  apply reachable_settled in Hs. destruct Hs as [Href Han].
  rewrite <- Href in Hc. cbv zeta. unfold step.
  destruct (commit_frame totalSlides
              (slideIntervalCallback autoScroll loop speed totalSlides s))
    as (-> & _ & -> & _ & -> & _ & -> & _).
  rewrite (slideIntervalCallback_elapsed autoScroll loop speed totalSlides
             Hspeed s t Ht Hle).
  cbv zeta.
  set (s0 := setSlideTimeProgress (Fin 0) (clearSlideInterval s)).
  assert (Hc0 : currentSlideRef s0 = Int c) by exact Hc.
  assert (Hgo : loop || (currentSlideRef s0 <? Int totalSlides - Int 1)%js = true).
  { rewrite Hc0. cbn. destruct Hmove as [->|Hlt]; [reflexivity|].
    apply orb_true_intro. right. apply Z.ltb_lt. lia. }
  rewrite Hgo.
  destruct (nextSlide_effects autoScroll loop speed totalSlides s0 c
              Hini Han Hc0 Hmove) as (-> & -> & -> & -> & _).
  cbn [currentSlide prevIndex]. rewrite nextCandidate_value by assumption.
  unfold restartedSlideInterval. rewrite Hauto.
  replace (0 <? speed) with true by (symmetry; apply Z.ltb_lt; lia).
  repeat split.
  f_equal. destruct (Z.eqb_spec c (totalSlides - 1)); [|reflexivity].
  destruct Hmove as [->|]; [reflexivity | lia].
Qed.

Lemma slide_tick_advances_when_slide_time_elapsed_witness :
  let s := run true true 300 3
             [Mount; Intersect true; GoToSlide 2; SlideTick; SlideTick]
             (initialState 3) in
  let s' := step true true 300 3 SlideTick s in
  currentSlide (indexState s') = Int (if 2 =? 3 - 1 then 0 else 2 + 1)
  /\ prevIndex (indexState s') = Int 2
  /\ direction s' = next
  /\ slideTimeProgress s' = Fin 0
  /\ slideProgressIntervalRef s' = Some (Int 0).
Proof.
  intros s.
  apply (slide_tick_advances_when_slide_time_elapsed true true 300 3 s 200 2).
  - apply reachable_run, reachable_initial.
  - reflexivity.
  - reflexivity.
  - lia.
  - reflexivity.
  - lia.
  - left. reflexivity.
Defined.

(** X16.  Without looping, the tick that completes the slide on the last
    slide ends the auto-scroll: the slide interval is cleared,
    [slideTimeProgress] goes back to 0, the indices stay, and further ticks
    of the slide interval change nothing. *)
Theorem auto_scroll_stops_at_last_slide_without_loop
    (autoScroll : bool) (speed totalSlides : Z) (s : State) (t c : Z) :
  reachable autoScroll false speed totalSlides s ->
  slideProgressIntervalRef s = Some (Int t) ->
  speed <= t + 100 ->
  currentSlide (indexState s) = Int c ->
  totalSlides - 1 <= c ->
  let s' := step autoScroll false speed totalSlides SlideTick s in
  indexState s' = indexState s
  /\ slideProgressIntervalRef s' = None
  /\ slideTimeProgress s' = Fin 0
  /\ step autoScroll false speed totalSlides SlideTick s' = s'.
Proof.
  intros Hs Ht Hle Hc Hlast.
  assert (Hcfg : autoScroll = true /\ 0 < speed).
  { apply (reachable_slideTimerGuard autoScroll false speed totalSlides s Hs).
    rewrite Ht. discriminate. }
  destruct Hcfg as [_ Hspeed].
  apply reachable_settled in Hs. destruct Hs as [Href _].
  rewrite <- Href in Hc. cbv zeta. unfold step.
  rewrite (slideIntervalCallback_elapsed autoScroll false speed totalSlides
             Hspeed s t Ht Hle).
  cbv zeta.
  set (s0 := setSlideTimeProgress (Fin 0) (clearSlideInterval s)).
  assert (Hc0 : currentSlideRef s0 = Int c) by exact Hc.
  assert (Hstay : false || (currentSlideRef s0 <? Int totalSlides - Int 1)%js
                  = false).
  { rewrite Hc0. cbn. apply Z.ltb_ge. lia. }
  rewrite Hstay.
  pose proof (commit_frame totalSlides s0)
    as (Hix & _ & Hstp & _ & _ & _ & Hst & _).
  rewrite Hix, Hstp, Hst. repeat split.
  unfold slideIntervalCallback. rewrite Hst. apply commit_idempotent.
Qed.

Lemma auto_scroll_stops_at_last_slide_without_loop_witness :
  let s := run true false 200 3
             [Mount; Intersect true; GoToSlide 2; SlideTick] (initialState 3) in
  let s' := step true false 200 3 SlideTick s in
  indexState s' = indexState s
  /\ slideProgressIntervalRef s' = None
  /\ slideTimeProgress s' = Fin 0
  /\ step true false 200 3 SlideTick s' = s'.
Proof.
  intros s.
  apply (auto_scroll_stops_at_last_slide_without_loop true 200 3 s 100 2).
  - apply reachable_run, reachable_initial.
  - reflexivity.
  - lia.
  - reflexivity.
  - lia.
Defined.

(** X17.  With [totalSlides = 0] and looping, every navigation that goes
    through [updateIndexes] takes a remainder modulo 0: [currentSlide]
    becomes [NaN] after [prevSlide()], after [nextSlide()] on an
    initialized hook and after [goToSlide(index)] with an index that is not
    current, and a mounted hook then exposes [NaN] for [totalProgress] and
    [bulletProgress]. *)
Theorem zero_slides_with_loop_gives_NaN
    (autoScroll : bool) (speed : Z) (s : State) (index : Z) :
  reachable autoScroll true speed 0 s ->
  currentSlide (indexState (step autoScroll true speed 0 PrevSlide s)) = NaN
  /\ (isInitialized s = true ->
      currentSlide (indexState (step autoScroll true speed 0 NextSlide s)) = NaN
      /\ totalProgress (step autoScroll true speed 0 PrevSlide s) = RNaN
      /\ bulletProgress (step autoScroll true speed 0 PrevSlide s) = RNaN)
  /\ ((Int index === currentSlide (indexState s))%js = false ->
      currentSlide (indexState (step autoScroll true speed 0 (GoToSlide index) s))
      = NaN).
Proof.
  intros Hr. pose proof (reachable_settled _ _ _ _ s Hr) as Hs.
  assert (Hprev : currentSlide
                    (indexState (step autoScroll true speed 0 PrevSlide s)) = NaN).
  { unfold step.
    destruct (commit_frame 0 (prevSlide autoScroll true speed 0 s)) as (-> & _).
    rewrite prevSlide_currentSlide by assumption. apply rem_zero. }
  split; [exact Hprev|]. split.
  - intros Hini. split.
    + unfold step.
      destruct (commit_frame 0 (nextSlide autoScroll true speed 0 s)) as (-> & _).
      pose proof (nextSlide_indexState autoScroll true speed 0 s Hs) as H.
      rewrite Hini in H. cbn [andb orb] in H. destruct H as [-> _].
      apply rem_zero.
    + pose proof (reachable_progressSynced autoScroll true speed 0 _
                    (reachable_step PrevSlide Hr)
                    (step_isInitialized autoScroll true speed 0 PrevSlide s Hini))
        as [-> ->].
      rewrite Hprev. split; reflexivity.
  - intros Hne. unfold step.
    destruct (commit_frame 0 (goToSlide autoScroll true speed 0 (Int index) s))
      as (-> & _).
    pose proof (goToSlide_indexState autoScroll true speed 0 (Int index) s Hs) as H.
    rewrite Hne in H. destruct H as [-> _]. apply rem_zero.
Qed.

Lemma zero_slides_with_loop_gives_NaN_witness :
  let s := run false true 3000 0 [Mount] (initialState 0) in
  currentSlide (indexState (step false true 3000 0 PrevSlide s)) = NaN
  /\ (isInitialized s = true ->
      currentSlide (indexState (step false true 3000 0 NextSlide s)) = NaN
      /\ totalProgress (step false true 3000 0 PrevSlide s) = RNaN
      /\ bulletProgress (step false true 3000 0 PrevSlide s) = RNaN)
  /\ ((Int 2 === currentSlide (indexState s))%js = false ->
      currentSlide (indexState (step false true 3000 0 (GoToSlide 2) s)) = NaN).
Proof.
  intros s.
  apply (zero_slides_with_loop_gives_NaN false 3000 s 2).
  apply reachable_run, reachable_initial.
Defined.

(** X18.  Without looping, [prevSlide()] on slide 0 stays on slide 0 but is
    not a no-op: it sets the direction to ['prev'] and [prevIndex] to 0,
    leaves [slideTimeProgress] as it is, and restarts the slide interval at
    0 when [autoScroll] is set and [speed] is positive; this is unlike
    [nextSlide()] on the last slide, which clears the interval and forces
    100. *)
Theorem prevSlide_at_first_slide_without_loop
    (autoScroll : bool) (speed totalSlides : Z) (s : State) :
  reachable autoScroll false speed totalSlides s ->
  currentSlide (indexState s) = Int 0 ->
  let s' := step autoScroll false speed totalSlides PrevSlide s in
  currentSlide (indexState s') = Int 0
  /\ prevIndex (indexState s') = Int 0
  /\ direction s' = prev
  /\ slideTimeProgress s' = slideTimeProgress s
  /\ slideProgressIntervalRef s'
     = (if autoScroll && (0 <? speed) then Some (Int 0)
        else slideProgressIntervalRef s).
Proof.
  intros Hs Hc. apply reachable_settled in Hs. cbv zeta. unfold step.
  destruct (commit_frame totalSlides (prevSlide autoScroll false speed totalSlides s))
    as (-> & _ & -> & _ & -> & _ & -> & _).
  destruct (prevSlide_effects autoScroll false speed totalSlides s) as (-> & -> & ->).
  destruct (prevSlide_indexState autoScroll false speed totalSlides s Hs) as [_ ->].
  rewrite prevSlide_currentSlide, Hc by assumption.
  repeat split.
Qed.

Lemma prevSlide_at_first_slide_without_loop_witness :
  let s := run true false 1000 3
             [Mount; Intersect true; SlideTick; SlideTick] (initialState 3) in
  let s' := step true false 1000 3 PrevSlide s in
  slideTimeProgress s = Fin 20
  /\ currentSlide (indexState s') = Int 0
  /\ prevIndex (indexState s') = Int 0
  /\ direction s' = prev
  /\ slideTimeProgress s' = slideTimeProgress s
  /\ slideProgressIntervalRef s' = Some (Int 0).
Proof.
  intros s. split; [reflexivity|].
  apply (prevSlide_at_first_slide_without_loop true 1000 3 s).
  - apply reachable_run, reachable_initial.
  - reflexivity.
Defined.

(** X19.  A tick of the loop interval adds 100 to its accumulator and
    exposes [loopProgress = loopTime / (speed * totalSlides) * 100] for the
    new accumulator; the accumulator is reset to 0 exactly when it has
    reached the cycle length, while the value just exposed is kept.  The
    indices, the slide interval and [slideTimeProgress] are untouched. *)
Theorem loop_tick_accumulates_and_resets
    (autoScroll loop : bool) (speed totalSlides : Z) (s : State) (t : Z) :
  loopProgressIntervalRef s = Some (Int t) ->
  0 < speed * totalSlides ->
  let s' := step autoScroll loop speed totalSlides LoopTick s in
  loopProgress s'
  = rmul (div (Int (t + 100)) (Int (speed * totalSlides))) (Int 100)
  /\ loopProgressIntervalRef s'
     = Some (Int (if speed * totalSlides <=? t + 100 then 0 else t + 100))
  /\ indexState s' = indexState s
  /\ slideProgressIntervalRef s' = slideProgressIntervalRef s
  /\ slideTimeProgress s' = slideTimeProgress s.
Proof.
  intros Ht HD. cbv zeta. unfold step.
  destruct (commit_frame totalSlides (loopIntervalCallback speed totalSlides s))
    as (-> & _ & -> & -> & _ & _ & -> & -> & _).
  unfold loopIntervalCallback. rewrite Ht. cbv zeta. cbn [Js.add Js.mul].
  rewrite pct_ge_100 by assumption.
  state_fields s. leaf_eval.
  destruct (speed * totalSlides <=? t + 100); repeat split.
Qed.

Lemma loop_tick_accumulates_and_resets_witness :
  let s := run true true 100 3 [Mount; Intersect true; LoopTick; LoopTick]
             (initialState 3) in
  let s' := step true true 100 3 LoopTick s in
  loopProgress s' = rmul (div (Int (200 + 100)) (Int (100 * 3))) (Int 100)
  /\ loopProgressIntervalRef s'
     = Some (Int (if 100 * 3 <=? 200 + 100 then 0 else 200 + 100))
  /\ indexState s' = indexState s
  /\ slideProgressIntervalRef s' = slideProgressIntervalRef s
  /\ slideTimeProgress s' = slideTimeProgress s.
Proof.
  intros s.
  apply (loop_tick_accumulates_and_resets true true 100 3 s 200);
    [reflexivity | lia].
Defined.
